(** * Static pool allocator (src/src/pool.c): shallow embedding and proofs

    The pool handle [TPool_handle] (src/src/pool_types.h) is a C struct of two
    [uint8] arrays, [memory] and [bitmap].  It is modelled by a record holding
    the address of the handle (which is also the address of [memory], the
    first member), and the two arrays as lists of bytes (integers in
    [0, 256)).  Pointers are flat addresses in [Z]; [NULL_PTR] is address 0.
    A NULL handle pointer is [None].

    The configuration constants [POOL_NUM_BLOCKS] and [POOL_BLOCK_SIZE]
    (src/cfg/pool_cfg.h, 4 and 32) are kept as section variables, so that the
    results hold for every configuration; the assumptions on them are the
    ones the configuration header and the C types impose. *)

From Stdlib Require Import ZArith Lia.
From stdpp Require Import base list.

Open Scope Z_scope.

(** ** C integer conversions *)

(** Conversion to [uint32] (wrap-around modulo 2^32). *)
Definition u32 (z : Z) : Z := z mod 2 ^ 32.

(** Conversion of a [uint32] value to [sint32] (two's complement). *)
Definition s32 (z : Z) : Z := if z <? 2 ^ 31 then z else z - 2 ^ 32.

(** Conversion to [uint8] (wrap-around modulo 2^8). *)
Definition u8 (z : Z) : Z := Z.land z 255.

(** The handle: [memory] then [bitmap], as in [TPool_handle]. *)
Record TPool_handle := mkPool {
  addr : Z;            (** address of the handle, = [p_handle->memory] *)
  memory : list Z;     (** [uint8 memory[POOL_NUM_BLOCKS * POOL_BLOCK_SIZE]] *)
  bitmap : list Z      (** [uint8 bitmap[(POOL_NUM_BLOCKS + 7) / 8]] *)
}.

Definition NULL_PTR : Z := 0.

(** Reading [bitmap[k]]; an out-of-range read (undefined in C) never happens
    on the paths below and is read as 0. *)
Definition byte_at (bm : list Z) (k : nat) : Z := default 0 (bm !! k).

(** ** Bitmap primitives (pool.c lines 36-85) *)

(** [set_bit]: [bitmap[index / 8] |= (1U << (index % 8))]. *)
Definition set_bit (bm : list Z) (index : nat) : list Z :=
  let byte_index := (index / 8)%nat in
  let bit_offset := (index mod 8)%nat in
  <[byte_index := u8 (Z.lor (byte_at bm byte_index) (Z.shiftl 1 (Z.of_nat bit_offset)))]> bm.

(** [clear_bit]: [mask = (uint8)(1U << (index % 8)); bitmap[index / 8] &= ~mask]. *)
Definition clear_bit (bm : list Z) (index : nat) : list Z :=
  let byte_index := (index / 8)%nat in
  let bit_offset := (index mod 8)%nat in
  let mask := u8 (Z.shiftl 1 (Z.of_nat bit_offset)) in
  <[byte_index := u8 (Z.land (byte_at bm byte_index) (Z.lnot mask))]> bm.

(** [test_bit]: [(bitmap[index / 8] >> (index % 8)) & 1U]. *)
Definition test_bit (bm : list Z) (index : nat) : Z :=
  let byte_index := (index / 8)%nat in
  let bit_offset := (index mod 8)%nat in
  Z.land (Z.shiftr (byte_at bm byte_index) (Z.of_nat bit_offset)) 1.

(** ** Block locator (pool.c lines 100-112) *)

(** The loop [for (i = i0; i < num_blocks; i++)], with [fuel = num_blocks - i]. *)
Fixpoint find_first_free_loop (bm : list Z) (i : nat) (fuel : nat) : Z :=
  match fuel with
  | O => -1
  | S fuel' =>
      if Z.eqb 0 (test_bit bm i) then s32 (Z.of_nat i)
      else find_first_free_loop bm (S i) fuel'
  end.

Definition find_first_free (bm : list Z) (num_blocks : nat) : Z :=
  find_first_free_loop bm 0 num_blocks.

(** ** Byte fill helper (src/base/helper_routines.c) *)

(** The loop [while (num-- > 0) *ptr++ = byte_value;] over the bytes of the
    destination object. *)
Fixpoint mem_set_loop (bytes : list Z) (byte_value : Z) (num : nat) : list Z :=
  match num, bytes with
  | O, _ => bytes
  | S num', b :: rest => byte_value :: mem_set_loop rest byte_value num'
  | S _, [] => []
  end.

Definition mem_set (dest : option (list Z)) (value : Z) (num : nat) : option (list Z) :=
  match dest with
  | None => None
  | Some bytes => Some (mem_set_loop bytes (u8 value) num)
  end.

Section Pool.

Variable POOL_NUM_BLOCKS : nat.
Variable POOL_BLOCK_SIZE : nat.

Definition BITMAP_BYTES : nat := ((POOL_NUM_BLOCKS + 7) / 8)%nat.

Definition sizeof_TPool_handle : nat :=
  (POOL_NUM_BLOCKS * POOL_BLOCK_SIZE + BITMAP_BYTES)%nat.

(** The object representation of the handle and back. *)
Definition handle_bytes (h : TPool_handle) : list Z := memory h ++ bitmap h.

Definition handle_of_bytes (a : Z) (bytes : list Z) : TPool_handle :=
  mkPool a (take (POOL_NUM_BLOCKS * POOL_BLOCK_SIZE) bytes)
           (drop (POOL_NUM_BLOCKS * POOL_BLOCK_SIZE) bytes).

(** [pool_init] (pool.c lines 124-132). *)
Definition pool_init (p_handle : option TPool_handle) : option TPool_handle :=
  match p_handle with
  | None => None
  | Some h =>
      match mem_set (Some (handle_bytes h)) 0 sizeof_TPool_handle with
      | Some bytes => Some (handle_of_bytes (addr h) bytes)
      | None => Some h
      end
  end.

(** [pool_alloc] (pool.c lines 145-169): the new handle and the returned
    pointer. *)
Definition pool_alloc (p_handle : option TPool_handle) : option TPool_handle * Z :=
  match p_handle with
  | None => (None, NULL_PTR)
  | Some h =>
      let block_index := find_first_free (bitmap h) POOL_NUM_BLOCKS in
      if block_index <? 0 then (Some h, NULL_PTR)
      else
        let h' := mkPool (addr h) (memory h)
                         (set_bit (bitmap h) (Z.to_nat (u32 block_index))) in
        (Some h', addr h + u32 (block_index * Z.of_nat POOL_BLOCK_SIZE))
  end.

(** The [return] statements of [pool_free], in source order, and the normal
    end of the function (with or without clearing the bit). *)
Inductive free_exit :=
  | Exit_null_argument      (** line 197 *)
  | Exit_out_of_bounds      (** line 207 *)
  | Exit_misaligned         (** line 216 *)
  | Exit_index_range        (** line 222 *)
  | Exit_cleared            (** line 228 reached *)
  | Exit_already_free.      (** [test_bit] was 0: nothing done *)

(** [pool_free] (pool.c lines 188-230), returning the new handle and which exit
    was taken.  [p_block - pool_start] (as [uint8] pointers) is a [ptrdiff_t]; dividing it by
    the [unsigned int] [POOL_BLOCK_SIZE] is a signed (truncating) division on
    an LP64 target, and the quotient is stored in a [uint32]. *)
Definition pool_free_exit (p_handle : option TPool_handle) (p_block : Z)
  : option TPool_handle * free_exit :=
  match p_handle with
  | None => (None, Exit_null_argument)
  | Some h =>
      if Z.eqb NULL_PTR p_block then (Some h, Exit_null_argument) else
      let pool_start := addr h in
      let pool_end := pool_start + Z.of_nat (POOL_NUM_BLOCKS * POOL_BLOCK_SIZE) in
      if (p_block <? pool_start) || (pool_end <=? p_block) then (Some h, Exit_out_of_bounds) else
      let block_index := u32 (Z.quot (p_block - pool_start) (Z.of_nat POOL_BLOCK_SIZE)) in
      if negb (Z.eqb (Z.rem (p_block - pool_start) (Z.of_nat POOL_BLOCK_SIZE)) 0)
      then (Some h, Exit_misaligned) else
      if Z.of_nat POOL_NUM_BLOCKS <=? block_index then (Some h, Exit_index_range) else
      if negb (Z.eqb (test_bit (bitmap h) (Z.to_nat block_index)) 0)
      then (Some (mkPool (addr h) (memory h) (clear_bit (bitmap h) (Z.to_nat block_index))),
            Exit_cleared)
      else (Some h, Exit_already_free)
  end.

Definition pool_free (p_handle : option TPool_handle) (p_block : Z) : option TPool_handle :=
  fst (pool_free_exit p_handle p_block).

(** The counting loop of [pool_get_free_count] (pool.c lines 261-267), from
    index [i] with [fuel = POOL_NUM_BLOCKS - i] iterations left. *)
Fixpoint free_count_loop (bm : list Z) (i : nat) (fuel : nat) (free_count : Z) : Z :=
  match fuel with
  | O => free_count
  | S fuel' =>
      if Z.eqb (test_bit bm i) 0
      then free_count_loop bm (S i) fuel' (u32 (free_count + 1))
      else free_count_loop bm (S i) fuel' free_count
  end.

(** [pool_get_free_count] (pool.c lines 249-270); the handle is [const]. *)
Definition pool_get_free_count (p_handle : option TPool_handle) : Z :=
  match p_handle with
  | None => 0
  | Some h => free_count_loop (bitmap h) 0 POOL_NUM_BLOCKS 0
  end.

(** The number of clear bits among indices [i .. i + n - 1], counted from
    the definition of the bitmap rather than by the loop of the source. *)
Definition clear_bits_in (bm : list Z) (i n : nat) : nat :=
  length (List.filter (fun j => Z.eqb (test_bit bm j) 0) (seq i n)).

(** The occupancy bit [index] as a boolean. *)
Definition bit (bm : list Z) (index : nat) : bool :=
  Z.testbit (byte_at bm (index / 8)) (Z.of_nat (index mod 8)).

(** A byte value. *)
Definition is_byte (b : Z) : Prop := 0 <= b < 256.

(** ** Definitions used to state the properties *)

(** What the C type [TPool_handle] guarantees about a handle object: it has
    a non-NULL address, and its arrays have their declared lengths and hold
    bytes. *)
Definition handle_wf (h : TPool_handle) : Prop :=
  0 < addr h /\ length (memory h) = (POOL_NUM_BLOCKS * POOL_BLOCK_SIZE)%nat /\
  length (bitmap h) = BITMAP_BYTES /\ Forall is_byte (bitmap h).

(** The all-zero handle at address [a]. *)
Definition zero_handle (a : Z) : TPool_handle :=
  mkPool a (replicate (POOL_NUM_BLOCKS * POOL_BLOCK_SIZE) 0) (replicate BITMAP_BYTES 0).

(** The address of block [i]: [&p_handle->memory[i * POOL_BLOCK_SIZE]]. *)
Definition block_addr (h : TPool_handle) (i : nat) : Z :=
  addr h + Z.of_nat i * Z.of_nat POOL_BLOCK_SIZE.

(** [k] consecutive calls of [pool_alloc] on the same handle, with the
    pointers they return. *)
Fixpoint pool_alloc_times (k : nat) (p_handle : option TPool_handle)
  : option TPool_handle * list Z :=
  match k with
  | O => (p_handle, [])
  | S k' =>
      let '(p1, r) := pool_alloc p_handle in
      let '(p2, rs) := pool_alloc_times k' p1 in
      (p2, r :: rs)
  end.

(** The handles reachable by [pool_init] on a handle object and then any
    sequence of [pool_alloc] and [pool_free] calls ([pool_get_free_count]
    does not write to the handle). *)
Inductive reachable : TPool_handle -> Prop :=
  | reach_init h h' :
      handle_wf h -> pool_init (Some h) = Some h' -> reachable h'
  | reach_alloc h h' r :
      reachable h -> pool_alloc (Some h) = (Some h', r) -> reachable h'
  | reach_free h h' p :
      reachable h -> pool_free (Some h) p = Some h' -> reachable h'.

(** The bits past the last block (padding of the last bitmap byte) are 0. *)
Definition padding_clear (bm : list Z) : Prop :=
  forall j, (POOL_NUM_BLOCKS <= j)%nat -> test_bit bm j = 0.

End Pool.

(** ** The configuration of src/cfg/pool_cfg.h, and sample handles *)

Definition POOL_NUM_BLOCKS_cfg : nat := 4.
Definition POOL_BLOCK_SIZE_cfg : nat := 32.

(** A handle at address 4096 with blocks 0 and 2 allocated (bitmap byte
    [0b0101]) and leftover bytes in the memory. *)
Definition demo_pool : TPool_handle := mkPool 4096 (replicate 128 7) [5].

(** All four blocks free, and all four allocated. *)
Definition free_pool : TPool_handle := mkPool 4096 (replicate 128 7) [0].
Definition full_pool : TPool_handle := mkPool 4096 (replicate 128 7) [15].

(** ** The demo harness (src/demo/test_pool.c) *)

(** The client code stores and loads [uint32] values through the pointers
    [pool_alloc] returns ([*block = 0xDEADBEEF]).  A [uint32] is stored as its
    four bytes, least significant first (the little-endian targets the demo
    runs on; loads use the same order, so the results below do not depend on
    it). *)
Definition le_bytes (v : Z) : list Z :=
  [u8 v; u8 (Z.shiftr v 8); u8 (Z.shiftr v 16); u8 (Z.shiftr v 24)].

Definition le_value (bs : list Z) : Z := fold_right (fun b acc => b + 256 * acc) 0 bs.

Fixpoint write_bytes (mem : list Z) (k : nat) (bs : list Z) : list Z :=
  match bs with
  | [] => mem
  | b :: bs' => write_bytes (<[k := b]> mem) (S k) bs'
  end.

Fixpoint read_bytes (mem : list Z) (k : nat) (n : nat) : list Z :=
  match n with
  | O => []
  | S n' => byte_at mem k :: read_bytes mem (S k) n'
  end.

(** The four bytes at [p] must lie in [memory]: an access anywhere else
    would reach outside the pool's storage, which the model does not cover
    ([None]). *)
Definition in_memory (h : TPool_handle) (p : Z) : bool :=
  (addr h <=? p) && (p - addr h + 4 <=? Z.of_nat (length (memory h))).

Definition store_u32 (h : TPool_handle) (p v : Z) : option TPool_handle :=
  if in_memory h p
  then Some (mkPool (addr h) (write_bytes (memory h) (Z.to_nat (p - addr h)) (le_bytes v))
                    (bitmap h))
  else None.

Definition load_u32 (h : TPool_handle) (p : Z) : option Z :=
  if in_memory h p
  then Some (le_value (read_bytes (memory h) (Z.to_nat (p - addr h)) 4))
  else None.

(** The static state of test_pool.c: the handle [test_pool] and the two
    [uint32] counters.  [printf] only produces output and is left out. *)
Record TestState := mkTestState {
  test_pool : TPool_handle;
  test_count : Z;
  test_passed : Z
}.

(** A run of harness code: the result and the new state, or [None] when the
    code would access memory outside the modelled objects. *)
Definition Harness (A : Type) : Type := TestState -> option (A * TestState).

Definition hret {A} (x : A) : Harness A := fun s => Some (x, s).

Definition hbind {A B} (m : Harness A) (k : A -> Harness B) : Harness B :=
  fun s => match m s with Some (x, s') => k x s' | None => None end.

Notation "x <-- m ;; k" := (hbind m (fun x => k))
  (at level 95, m at next level, right associativity).

Definition set_pool (s : TestState) (h : TPool_handle) : TestState :=
  mkTestState h (test_count s) (test_passed s).

(** [TEST_ASSERT(condition)]. *)
Definition TEST_ASSERT (condition : bool) : Harness unit :=
  fun s => Some (tt, mkTestState (test_pool s) (u32 (test_count s + 1))
                      (if condition then u32 (test_passed s + 1) else test_passed s)).

(** [(uint8* )&test_pool]. *)
Definition test_pool_addr : Harness Z := fun s => Some (addr (test_pool s), s).

(** [*(uint32* )p = v] and [*(uint32* )p]. *)
Definition store (p v : Z) : Harness unit :=
  fun s => match store_u32 (test_pool s) p v with
           | Some h => Some (tt, set_pool s h)
           | None => None
           end.

Definition load (p : Z) : Harness Z :=
  fun s => match load_u32 (test_pool s) p with
           | Some v => Some (v, s)
           | None => None
           end.

Section Harness.

Variable POOL_NUM_BLOCKS : nat.
Variable POOL_BLOCK_SIZE : nat.

(** The pool calls of the harness, on [&test_pool] and on [NULL_PTR]. *)
Definition call_pool_init : Harness unit :=
  fun s => match pool_init POOL_NUM_BLOCKS POOL_BLOCK_SIZE (Some (test_pool s)) with
           | Some h => Some (tt, set_pool s h)
           | None => None
           end.

Definition call_pool_init_null : Harness unit :=
  fun s => match pool_init POOL_NUM_BLOCKS POOL_BLOCK_SIZE None with
           | None => Some (tt, s)
           | Some _ => None
           end.

Definition call_pool_alloc : Harness Z :=
  fun s => match pool_alloc POOL_NUM_BLOCKS POOL_BLOCK_SIZE (Some (test_pool s)) with
           | (Some h, r) => Some (r, set_pool s h)
           | (None, _) => None
           end.

Definition call_pool_alloc_null : Harness Z :=
  fun s => match pool_alloc POOL_NUM_BLOCKS POOL_BLOCK_SIZE None with
           | (None, r) => Some (r, s)
           | (Some _, _) => None
           end.

Definition call_pool_free (p : Z) : Harness unit :=
  fun s => match pool_free POOL_NUM_BLOCKS POOL_BLOCK_SIZE (Some (test_pool s)) p with
           | Some h => Some (tt, set_pool s h)
           | None => None
           end.

Definition call_pool_free_null (p : Z) : Harness unit :=
  fun s => match pool_free POOL_NUM_BLOCKS POOL_BLOCK_SIZE None p with
           | None => Some (tt, s)
           | Some _ => None
           end.

Definition call_pool_get_free_count : Harness Z :=
  fun s => Some (pool_get_free_count POOL_NUM_BLOCKS (Some (test_pool s)), s).

(** [test_pool_init] (test_pool.c lines 59-67). *)
Definition test_pool_init : Harness unit :=
  _ <-- call_pool_init_null ;;
  _ <-- call_pool_init ;;
  c <-- call_pool_get_free_count ;;
  TEST_ASSERT (Z.eqb c (Z.of_nat POOL_NUM_BLOCKS)).

(** [test_single_allocation] (test_pool.c lines 72-98);
    [(uint8* )(&test_pool + 1)] is [&test_pool] plus [sizeof(TPool_handle)]. *)
Definition test_single_allocation : Harness unit :=
  block <-- call_pool_alloc ;;
  _ <-- TEST_ASSERT (negb (Z.eqb block NULL_PTR)) ;;
  a <-- test_pool_addr ;;
  _ <-- TEST_ASSERT (a <=? block) ;;
  _ <-- TEST_ASSERT (block <? a + Z.of_nat (sizeof_TPool_handle POOL_NUM_BLOCKS POOL_BLOCK_SIZE)) ;;
  _ <-- store block 0xDEADBEEF ;;
  v <-- load block ;;
  _ <-- TEST_ASSERT (Z.eqb v 0xDEADBEEF) ;;
  _ <-- call_pool_free block ;;
  new_block <-- call_pool_alloc ;;
  _ <-- TEST_ASSERT (Z.eqb new_block block) ;;
  _ <-- call_pool_free new_block ;;
  c <-- call_pool_get_free_count ;;
  TEST_ASSERT (Z.eqb c (Z.of_nat POOL_NUM_BLOCKS)).

(** The loops of [test_multiple_allocations] over [i] from [i] up to
    [num_blocks], with [fuel = num_blocks - i] iterations left; [blocks] is
    the array of pointers and [value i] the [uint32] written to block [i]. *)
Fixpoint alloc_write_loop (value : Z -> Z) (blocks : list Z) (i fuel : nat)
  : Harness (list Z) :=
  match fuel with
  | O => hret blocks
  | S fuel' =>
      p <-- call_pool_alloc ;;
      let blocks' := <[i := p]> blocks in
      _ <-- TEST_ASSERT (negb (Z.eqb (default 0 (blocks' !! i)) NULL_PTR)) ;;
      _ <-- store (default 0 (blocks' !! i)) (value (Z.of_nat i)) ;;
      alloc_write_loop value blocks' (S i) fuel'
  end.

Fixpoint check_loop (value : Z -> Z) (blocks : list Z) (i fuel : nat) : Harness unit :=
  match fuel with
  | O => hret tt
  | S fuel' =>
      v <-- load (default 0 (blocks !! i)) ;;
      _ <-- TEST_ASSERT (Z.eqb v (value (Z.of_nat i))) ;;
      check_loop value blocks (S i) fuel'
  end.

Fixpoint free_loop (blocks : list Z) (i fuel : nat) : Harness unit :=
  match fuel with
  | O => hret tt
  | S fuel' =>
      _ <-- call_pool_free (default 0 (blocks !! i)) ;;
      free_loop blocks (S i) fuel'
  end.

(** [pattern + i] and [~(pattern + i)] as [uint32]s. *)
Definition pattern : Z := 0xABCD1234.

Definition pattern_plus (i : Z) : Z := u32 (pattern + i).

Definition pattern_not (i : Z) : Z := u32 (Z.lnot (u32 (pattern + i))).

(** [test_multiple_allocations] (test_pool.c lines 103-150).  The array
    [blocks] is not initialised in the source; every element is written
    before it is read, and the model starts it at 0. *)
Definition test_multiple_allocations : Harness unit :=
  let num_blocks := POOL_NUM_BLOCKS in
  blocks <-- alloc_write_loop pattern_plus (replicate num_blocks 0) 0 num_blocks ;;
  p <-- call_pool_alloc ;;
  _ <-- TEST_ASSERT (Z.eqb p NULL_PTR) ;;
  _ <-- check_loop pattern_plus blocks 0 num_blocks ;;
  _ <-- free_loop blocks 0 num_blocks ;;
  blocks <-- alloc_write_loop pattern_not blocks 0 num_blocks ;;
  _ <-- check_loop pattern_not blocks 0 num_blocks ;;
  free_loop blocks 0 num_blocks.

(** [test_free_and_reuse] (test_pool.c lines 155-172). *)
Definition test_free_and_reuse : Harness unit :=
  block1 <-- call_pool_alloc ;;
  block2 <-- call_pool_alloc ;;
  _ <-- TEST_ASSERT (negb (Z.eqb block1 NULL_PTR)) ;;
  _ <-- TEST_ASSERT (negb (Z.eqb block2 NULL_PTR)) ;;
  _ <-- TEST_ASSERT (negb (Z.eqb block1 block2)) ;;
  _ <-- call_pool_free block1 ;;
  block3 <-- call_pool_alloc ;;
  _ <-- TEST_ASSERT (negb (Z.eqb block3 NULL_PTR)) ;;
  _ <-- call_pool_free block2 ;;
  call_pool_free block3.

(** [test_null_handling] (test_pool.c lines 177-189). *)
Definition test_null_handling : Harness unit :=
  r <-- call_pool_alloc_null ;;
  _ <-- TEST_ASSERT (Z.eqb r NULL_PTR) ;;
  _ <-- call_pool_free_null NULL_PTR ;;
  block <-- call_pool_alloc ;;
  _ <-- TEST_ASSERT (negb (Z.eqb block NULL_PTR)) ;;
  _ <-- call_pool_free NULL_PTR ;;
  _ <-- call_pool_free_null block ;;
  call_pool_free block.

(** [test_boundary_conditions] (test_pool.c lines 194-207); [dummy_addr] is
    the address of its local [uint8 dummy]. *)
Definition test_boundary_conditions (dummy_addr : Z) : Harness unit :=
  _ <-- call_pool_free dummy_addr ;;
  a <-- test_pool_addr ;;
  _ <-- call_pool_free (a - 1) ;;
  call_pool_free (a + Z.of_nat (sizeof_TPool_handle POOL_NUM_BLOCKS POOL_BLOCK_SIZE)).

(** [run_all_tests] (test_pool.c lines 42-54). *)
Definition run_all_tests (dummy_addr : Z) : Harness unit :=
  _ <-- test_pool_init ;;
  _ <-- test_single_allocation ;;
  _ <-- test_multiple_allocations ;;
  _ <-- test_free_and_reuse ;;
  _ <-- test_null_handling ;;
  test_boundary_conditions dummy_addr.

End Harness.

(** ** Bit-level facts about the bitmap primitives *)


Lemma test_bit_b2z bm i : test_bit bm i = Z.b2z (bit bm i).
Proof.
  unfold test_bit, bit.
  change 1 with (Z.ones 1). rewrite Z.land_ones by lia.
  rewrite Zmod_odd, <- Z.bit0_odd, Z.shiftr_spec by lia.
  now destruct (Z.testbit _ _).
Qed.

Lemma test_bit_cases bm i : test_bit bm i = 0 \/ test_bit bm i = 1.
Proof. rewrite test_bit_b2z. destruct (bit bm i); auto. Qed.

Lemma test_bit_0 bm i : test_bit bm i = 0 <-> bit bm i = false.
Proof. rewrite test_bit_b2z. destruct (bit bm i); simpl; split; congruence. Qed.

Lemma test_bit_1 bm i : test_bit bm i = 1 <-> bit bm i = true.
Proof. rewrite test_bit_b2z. destruct (bit bm i); simpl; split; congruence. Qed.

Lemma u8_testbit x k : 0 <= k < 8 -> Z.testbit (u8 x) k = Z.testbit x k.
Proof.
  intros Hk. unfold u8. change 255 with (Z.ones 8).
  rewrite Z.land_spec, Z.ones_spec_low by lia. apply andb_true_r.
Qed.

Lemma u8_byte x : is_byte (u8 x).
Proof.
  unfold is_byte, u8. change 255 with (Z.ones 8).
  rewrite Z.land_ones by lia. apply Z.mod_pos_bound. lia.
Qed.

Lemma mod8_bound i : (0 <= Z.of_nat (i mod 8) < 8)%Z.
Proof. pose proof (Nat.mod_upper_bound i 8). lia. Qed.

Lemma mod8_eq i j : (j / 8 = i / 8)%nat ->
  (Z.of_nat (i mod 8) =? Z.of_nat (j mod 8)) = Nat.eqb j i.
Proof.
  intros Hq. pose proof (Nat.div_mod_eq j 8). pose proof (Nat.div_mod_eq i 8).
  destruct (Z.eqb_spec (Z.of_nat (i mod 8)) (Z.of_nat (j mod 8)));
    destruct (Nat.eqb_spec j i); subst; lia.
Qed.

Lemma div8_ne i j : (j / 8 <> i / 8)%nat -> Nat.eqb j i = false.
Proof. intros Hq. apply Nat.eqb_neq. intros ->. congruence. Qed.

Lemma bit_set_bit bm i j : (i / 8 < length bm)%nat ->
  bit (set_bit bm i) j = bit bm j || Nat.eqb j i.
Proof.
  intros Hlen. unfold bit, set_bit, byte_at.
  destruct (decide (j / 8 = i / 8)%nat) as [Hq | Hq].
  - rewrite Hq, list_lookup_insert_eq by exact Hlen. cbn [default id].
    pose proof (mod8_bound j). pose proof (mod8_bound i).
    rewrite u8_testbit, Z.lor_spec, Z.shiftl_1_l, Z.pow2_bits_eqb by lia.
    rewrite mod8_eq by exact Hq. reflexivity.
  - rewrite list_lookup_insert_ne by congruence.
    rewrite div8_ne by exact Hq. now rewrite orb_false_r.
Qed.

Lemma bit_clear_bit bm i j : (i / 8 < length bm)%nat ->
  bit (clear_bit bm i) j = bit bm j && negb (Nat.eqb j i).
Proof.
  intros Hlen. unfold bit, clear_bit, byte_at.
  destruct (decide (j / 8 = i / 8)%nat) as [Hq | Hq].
  - rewrite Hq, list_lookup_insert_eq by exact Hlen. cbn [default id].
    pose proof (mod8_bound j). pose proof (mod8_bound i).
    rewrite u8_testbit, Z.land_spec, Z.lnot_spec, u8_testbit by lia.
    rewrite Z.shiftl_1_l, Z.pow2_bits_eqb by lia.
    rewrite mod8_eq by exact Hq. reflexivity.
  - rewrite list_lookup_insert_ne by congruence.
    rewrite div8_ne by exact Hq. now rewrite andb_true_r.
Qed.

Lemma length_set_bit bm i : length (set_bit bm i) = length bm.
Proof. apply length_insert. Qed.

Lemma length_clear_bit bm i : length (clear_bit bm i) = length bm.
Proof. apply length_insert. Qed.

Lemma set_bit_bytes bm i : Forall is_byte bm -> Forall is_byte (set_bit bm i).
Proof. intros H. apply Forall_insert; [exact H | apply u8_byte]. Qed.

Lemma clear_bit_bytes bm i : Forall is_byte bm -> Forall is_byte (clear_bit bm i).
Proof. intros H. apply Forall_insert; [exact H | apply u8_byte]. Qed.

Lemma test_bit_set_bit_eq bm i :
  (i / 8 < length bm)%nat -> test_bit (set_bit bm i) i = 1.
Proof.
  intros H. apply test_bit_1. rewrite bit_set_bit by exact H.
  now rewrite Nat.eqb_refl, orb_true_r.
Qed.

Lemma test_bit_set_bit_ne bm i j : j <> i -> test_bit (set_bit bm i) j = test_bit bm j.
Proof.
  intros Hji. rewrite !test_bit_b2z. f_equal.
  destruct (decide (i / 8 < length bm)%nat) as [H | H].
  - rewrite bit_set_bit by exact H. apply Nat.eqb_neq in Hji. now rewrite Hji, orb_false_r.
  - unfold set_bit. rewrite list_insert_ge by lia. reflexivity.
Qed.

Lemma test_bit_clear_bit_eq bm i :
  (i / 8 < length bm)%nat -> test_bit (clear_bit bm i) i = 0.
Proof.
  intros H. apply test_bit_0. rewrite bit_clear_bit by exact H.
  now rewrite Nat.eqb_refl, andb_false_r.
Qed.

Lemma test_bit_clear_bit_ne bm i j : j <> i -> test_bit (clear_bit bm i) j = test_bit bm j.
Proof.
  intros Hji. rewrite !test_bit_b2z. f_equal.
  destruct (decide (i / 8 < length bm)%nat) as [H | H].
  - rewrite bit_clear_bit by exact H. apply Nat.eqb_neq in Hji. now rewrite Hji, andb_true_r.
  - unfold clear_bit. rewrite list_insert_ge by lia. reflexivity.
Qed.

(** ** The loops *)

Lemma find_first_free_loop_cases bm i fuel :
  Z.of_nat (i + fuel) <= 2 ^ 31 ->
  (find_first_free_loop bm i fuel = -1 /\
   forall k, (i <= k < i + fuel)%nat -> test_bit bm k = 1) \/
  (exists j, (i <= j < i + fuel)%nat /\
     find_first_free_loop bm i fuel = Z.of_nat j /\ test_bit bm j = 0 /\
     forall k, (i <= k < j)%nat -> test_bit bm k = 1).
Proof.
  revert i. induction fuel as [|fuel IH]; intros i Hfit; cbn [find_first_free_loop].
  - left. split; [reflexivity | intros k Hk; lia].
  - destruct (Z.eqb_spec 0 (test_bit bm i)) as [H0 | H0].
    + right. exists i. unfold s32.
      replace (Z.of_nat i <? 2 ^ 31) with true by (symmetry; apply Z.ltb_lt; lia).
      split; [lia |]. split; [reflexivity |]. split; [auto |].
      intros k Hk. lia.
    + destruct (IH (S i)) as [[Hr Hall] | [j (Hj & Hr & Hj0 & Hlow)]]; [lia | |].
      * left. split; [exact Hr |].
        intros k Hk. destruct (decide (k = i)) as [-> |].
        -- destruct (test_bit_cases bm i); congruence.
        -- apply Hall. lia.
      * right. exists j. repeat split; [lia | lia | exact Hr | exact Hj0 |].
        intros k Hk. destruct (decide (k = i)) as [-> |].
        -- destruct (test_bit_cases bm i); congruence.
        -- apply Hlow. lia.
Qed.

Lemma find_first_free_loop_agree bm1 bm2 i fuel :
  (forall k, (i <= k < i + fuel)%nat -> test_bit bm1 k = test_bit bm2 k) ->
  find_first_free_loop bm1 i fuel = find_first_free_loop bm2 i fuel.
Proof.
  revert i. induction fuel as [|fuel IH]; intros i Hag;
    cbn [find_first_free_loop]; [reflexivity |].
  rewrite (Hag i) by lia. rewrite (IH (S i)) by (intros; apply Hag; lia).
  reflexivity.
Qed.


Lemma free_count_loop_spec bm i fuel c :
  0 <= c -> c + Z.of_nat fuel < 2 ^ 32 ->
  free_count_loop bm i fuel c = c + Z.of_nat (clear_bits_in bm i fuel).
Proof.
  unfold clear_bits_in.
  revert i c. induction fuel as [|fuel IH]; intros i c Hc Hfit;
    cbn [free_count_loop seq List.filter length]; [lia |].
  destruct (Z.eqb (test_bit bm i) 0); simpl length.
  - unfold u32. rewrite Z.mod_small by lia. rewrite IH by lia. lia.
  - rewrite IH by lia. reflexivity.
Qed.

Lemma free_count_loop_agree bm1 bm2 i fuel c :
  (forall k, (i <= k < i + fuel)%nat -> test_bit bm1 k = test_bit bm2 k) ->
  free_count_loop bm1 i fuel c = free_count_loop bm2 i fuel c.
Proof.
  revert i c. induction fuel as [|fuel IH]; intros i c Hag;
    cbn [free_count_loop]; [reflexivity |].
  rewrite (Hag i) by lia.
  destruct (Z.eqb (test_bit bm2 i) 0); apply IH; intros; apply Hag; lia.
Qed.

(** ** [mem_set] *)

Lemma mem_set_loop_all bytes v :
  mem_set_loop bytes v (length bytes) = replicate (length bytes) v.
Proof. induction bytes as [|b bytes IH]; simpl; [reflexivity | now rewrite IH]. Qed.

Lemma byte_at_replicate n k : byte_at (replicate n 0) k = 0.
Proof.
  unfold byte_at. destruct (replicate n 0 !! k) eqn:E; [| reflexivity].
  apply lookup_replicate in E. simpl. now destruct E.
Qed.

Lemma test_bit_replicate n k : test_bit (replicate n 0) k = 0.
Proof. unfold test_bit. now rewrite byte_at_replicate, Z.shiftr_0_l. Qed.

Lemma bit_beyond bm j : (length bm <= j / 8)%nat -> bit bm j = false.
Proof.
  intros H. unfold bit, byte_at. rewrite lookup_ge_None_2 by exact H.
  apply Z.testbit_0_l.
Qed.

(** ** Operations on a well-formed handle *)

Section Proofs.

(** [NB] is [POOL_NUM_BLOCKS], [BS] is [POOL_BLOCK_SIZE]. *)
Variables NB BS : nat.

Local Abbreviation handle_wf := (handle_wf NB BS).
Local Abbreviation zero_handle := (zero_handle NB BS).
Local Abbreviation block_addr := (block_addr BS).

(** [POOL_BLOCK_SIZE] is at least 1, and the memory array fits well inside
    the [sint32] range used for block indices and offsets. *)
Hypothesis HS : (0 < BS)%nat.
Hypothesis Hfit : Z.of_nat (NB * BS) < 2 ^ 31.

Lemma N_le : Z.of_nat NB < 2 ^ 31.
Proof. pose proof (Nat.mul_le_mono_l 1 BS NB). lia. Qed.

Lemma index_in_bitmap i : (i < NB)%nat -> (i / 8 < BITMAP_BYTES NB)%nat.
Proof.
  unfold BITMAP_BYTES. intros Hi.
  pose proof (Nat.div_mod_eq i 8). pose proof (Nat.mod_upper_bound i 8).
  pose proof (Nat.div_mod_eq (NB + 7) 8). pose proof (Nat.mod_upper_bound (NB + 7) 8).
  lia.
Qed.

Lemma block_addr_inj h i j : block_addr h i = block_addr h j -> i = j.
Proof. unfold block_addr. intros E. apply Nat2Z.inj. nia. Qed.

Lemma lowest_clear bm :
  (exists j, (j < NB)%nat /\ test_bit bm j = 0) ->
  exists i, (i < NB)%nat /\ test_bit bm i = 0 /\ forall k, (k < i)%nat -> test_bit bm k = 1.
Proof.
  intros [j [Hj Hj0]]. pose proof N_le.
  destruct (find_first_free_loop_cases bm 0 NB) as [[_ Hall] | [i (Hi & _ & Hi0 & Hlow)]];
    [lia | |].
  - rewrite Hall in Hj0 by lia. discriminate.
  - exists i. split; [lia |]. split; [exact Hi0 |]. intros k Hk. apply Hlow. lia.
Qed.

Lemma pool_alloc_found h i :
  (i < NB)%nat -> test_bit (bitmap h) i = 0 ->
  (forall k, (k < i)%nat -> test_bit (bitmap h) k = 1) ->
  pool_alloc NB BS (Some h) =
    (Some (mkPool (addr h) (memory h) (set_bit (bitmap h) i)), block_addr h i).
Proof.
  intros Hi Hi0 Hlow. pose proof N_le.
  unfold pool_alloc, find_first_free.
  destruct (find_first_free_loop_cases (bitmap h) 0 NB)
    as [[_ Hall] | [j (Hj & Hr & Hj0 & Hlowj)]]; [lia | |].
  - rewrite Hall in Hi0 by lia. discriminate.
  - assert (j = i) as ->.
    { destruct (Nat.lt_total j i) as [Hlt | [Heq | Hlt]]; [| exact Heq |].
      - rewrite Hlow in Hj0 by lia. discriminate.
      - rewrite Hlowj in Hi0 by lia. discriminate. }
    rewrite Hr. replace (Z.of_nat i <? 0) with false by (symmetry; apply Z.ltb_ge; lia).
    unfold u32, block_addr.
    assert (Z.of_nat (i * BS) < Z.of_nat (NB * BS)) by (apply Nat2Z.inj_lt; nia).
    rewrite (Z.mod_small (Z.of_nat i)) by lia.
    rewrite (Z.mod_small (Z.of_nat i * Z.of_nat BS)) by lia.
    now rewrite Nat2Z.id.
Qed.

Lemma pool_alloc_full h :
  (forall k, (k < NB)%nat -> test_bit (bitmap h) k = 1) ->
  pool_alloc NB BS (Some h) = (Some h, NULL_PTR).
Proof.
  intros Hall. pose proof N_le.
  unfold pool_alloc, find_first_free.
  destruct (find_first_free_loop_cases (bitmap h) 0 NB)
    as [[Hr _] | [j (Hj & Hr & Hj0 & _)]]; [lia | |].
  - now rewrite Hr.
  - rewrite Hall in Hj0 by lia. discriminate.
Qed.

(** Every call of [pool_free] on a handle either leaves it as it is, or
    clears the bit of a block [i < NB] that was set, [p_block] being exactly the
    address of block [i]. *)
Lemma pool_free_exit_cases h p :
  (fst (pool_free_exit NB BS (Some h) p) = Some h /\
   snd (pool_free_exit NB BS (Some h) p) <> Exit_cleared) \/
  (exists i, (i < NB)%nat /\ p <> NULL_PTR /\ p = block_addr h i /\
     test_bit (bitmap h) i = 1 /\
     pool_free_exit NB BS (Some h) p =
       (Some (mkPool (addr h) (memory h) (clear_bit (bitmap h) i)), Exit_cleared)).
Proof.
  unfold pool_free_exit.
  destruct (Z.eqb_spec NULL_PTR p) as [Hnull | Hnull];
    [left; split; [reflexivity | discriminate] |].
  destruct (Z.ltb_spec p (addr h)); destruct (Z.leb_spec (addr h + Z.of_nat (NB * BS)) p);
    simpl orb; try (left; split; [reflexivity | discriminate]).
  set (q := Z.quot (p - addr h) (Z.of_nat BS)).
  pose proof (Z.quot_rem' (p - addr h) (Z.of_nat BS)) as Hqr. fold q in Hqr.
  destruct (Z.eqb_spec (Z.rem (p - addr h) (Z.of_nat BS)) 0) as [Hrem | Hrem];
    simpl negb; [| left; split; [reflexivity | discriminate]].
  assert (0 <= q) by (apply Z.quot_pos; lia).
  assert (q < Z.of_nat NB) by nia.
  pose proof N_le.
  unfold u32. rewrite (Z.mod_small q) by lia.
  replace (Z.of_nat NB <=? q) with false by (symmetry; apply Z.leb_gt; lia).
  destruct (Z.eqb_spec (test_bit (bitmap h) (Z.to_nat q)) 0) as [Ht | Ht];
    simpl negb; [left; split; [reflexivity | discriminate] |].
  right. exists (Z.to_nat q). split; [lia |]. split; [intros E; apply Hnull; now rewrite E |].
  split; [unfold block_addr; rewrite Z2Nat.id by lia; lia |].
  split; [destruct (test_bit_cases (bitmap h) (Z.to_nat q)); congruence | reflexivity].
Qed.

Lemma pool_free_cases h p :
  pool_free NB BS (Some h) p = Some h \/
  (exists i, (i < NB)%nat /\ p <> NULL_PTR /\ p = block_addr h i /\
     test_bit (bitmap h) i = 1 /\
     pool_free NB BS (Some h) p = Some (mkPool (addr h) (memory h) (clear_bit (bitmap h) i))).
Proof.
  unfold pool_free.
  destruct (pool_free_exit_cases h p) as [[H _] | (i & Hi & Hn & Hp & H1 & H)].
  - left. exact H.
  - right. exists i. rewrite H. auto.
Qed.

Lemma clear_or_full bm :
  (exists i, (i < NB)%nat /\ test_bit bm i = 0 /\ forall k, (k < i)%nat -> test_bit bm k = 1) \/
  (forall k, (k < NB)%nat -> test_bit bm k = 1).
Proof.
  pose proof N_le.
  destruct (find_first_free_loop_cases bm 0 NB) as [[_ Hall] | [i (Hi & _ & Hi0 & Hlow)]];
    [lia | right; intros k Hk; apply Hall; lia |].
  left. exists i. split; [lia |]. split; [exact Hi0 |]. intros k Hk. apply Hlow. lia.
Qed.

(** Well-formedness is kept by every operation. *)
Lemma pool_alloc_wf h h' r :
  handle_wf h -> pool_alloc NB BS (Some h) = (Some h', r) -> handle_wf h'.
Proof.
  intros Hwf E.
  destruct (clear_or_full (bitmap h)) as [(i & Hi & Hi0 & Hlow) | Hall].
  - rewrite (pool_alloc_found h i) in E by assumption. injection E as <- _.
    destruct Hwf as (Ha & Hm & Hb & Hby).
    split; [exact Ha |]. split; [exact Hm |].
    split; [simpl; now rewrite length_set_bit | now apply set_bit_bytes].
  - rewrite pool_alloc_full in E by exact Hall. now injection E as <- _.
Qed.

Lemma pool_free_wf h h' p :
  handle_wf h -> pool_free NB BS (Some h) p = Some h' -> handle_wf h'.
Proof.
  intros Hwf E.
  destruct (pool_free_cases h p) as [E' | (i & _ & _ & _ & _ & E')];
    rewrite E' in E; injection E as <-; [exact Hwf |].
  destruct Hwf as (Ha & Hm & Hb & Hby).
  split; [exact Ha |]. split; [exact Hm |].
  split; [simpl; now rewrite length_clear_bit | now apply clear_bit_bytes].
Qed.

Lemma pool_init_zero h :
  length (memory h) = (NB * BS)%nat -> length (bitmap h) = BITMAP_BYTES NB ->
  pool_init NB BS (Some h) = Some (zero_handle (addr h)).
Proof.
  intros Hm Hb. unfold pool_init, mem_set, handle_of_bytes, zero_handle.
  replace (sizeof_TPool_handle NB BS) with (length (handle_bytes h))
    by (unfold handle_bytes, sizeof_TPool_handle; rewrite length_app; lia).
  rewrite mem_set_loop_all. unfold handle_bytes. rewrite length_app, Hm, Hb.
  change (u8 0) with 0.
  rewrite take_replicate, drop_replicate.
  do 3 f_equal; lia.
Qed.

(** [k + m] calls from a handle whose first [k] blocks are allocated and whose
    other blocks are free hand out blocks [k], [k+1], ..., [k+m-1]. *)
Lemma pool_alloc_times_prefix m k h :
  handle_wf h -> (k + m <= NB)%nat ->
  (forall j, (j < k)%nat -> test_bit (bitmap h) j = 1) ->
  (forall j, (k <= j < NB)%nat -> test_bit (bitmap h) j = 0) ->
  exists h', pool_alloc_times NB BS m (Some h) = (Some h', map (block_addr h) (seq k m)) /\
    handle_wf h' /\ addr h' = addr h /\
    (forall j, (j < k + m)%nat -> test_bit (bitmap h') j = 1) /\
    (forall j, (k + m <= j < NB)%nat -> test_bit (bitmap h') j = 0).
Proof.
  revert k h. induction m as [|m IH]; intros k h Hwf Hkm Hset Hclr.
  - exists h. split; [reflexivity |]. split; [exact Hwf |]. split; [reflexivity |].
    split; intros j Hj; [apply Hset | apply Hclr]; lia.
  - cbn [pool_alloc_times].
    assert (Hk : (k < NB)%nat) by lia.
    rewrite (pool_alloc_found h k Hk) by (auto; apply Hclr; lia).
    set (h1 := mkPool (addr h) (memory h) (set_bit (bitmap h) k)).
    assert (Hwf1 : handle_wf h1).
    { apply (pool_alloc_wf h h1 (block_addr h k) Hwf).
      apply pool_alloc_found; auto. }
    assert (Hlen : (k / 8 < length (bitmap h))%nat)
      by (destruct Hwf as (_ & _ & -> & _); now apply index_in_bitmap).
    destruct (IH (S k) h1) as (h' & E & Hwf' & Ha & Hs & Hc); [exact Hwf1 | lia | | |].
    + intros j Hj. unfold h1; simpl bitmap.
      destruct (decide (j = k)) as [-> | Hne];
        [now apply test_bit_set_bit_eq | rewrite test_bit_set_bit_ne by exact Hne; apply Hset; lia].
    + intros j Hj. unfold h1; simpl bitmap.
      rewrite test_bit_set_bit_ne by lia. apply Hclr. lia.
    + rewrite E. exists h'. split.
      * reflexivity.
      * split; [exact Hwf' |]. split; [exact Ha |].
        split; intros j Hj; [apply Hs | apply Hc]; lia.
Qed.

(** [pool_alloc] and [pool_free] write no bit at an index [>= POOL_NUM_BLOCKS]. *)
Lemma pool_alloc_high h h' r j :
  pool_alloc NB BS (Some h) = (Some h', r) -> (NB <= j)%nat ->
  test_bit (bitmap h') j = test_bit (bitmap h) j.
Proof.
  intros E Hj.
  destruct (clear_or_full (bitmap h)) as [(i & Hi & Hi0 & Hlow) | Hall].
  - rewrite (pool_alloc_found h i) in E by assumption. injection E as <- _.
    simpl. apply test_bit_set_bit_ne. lia.
  - rewrite pool_alloc_full in E by exact Hall. now injection E as <- _.
Qed.

Lemma pool_free_high h h' p j :
  pool_free NB BS (Some h) p = Some h' -> (NB <= j)%nat ->
  test_bit (bitmap h') j = test_bit (bitmap h) j.
Proof.
  intros E Hj.
  destruct (pool_free_cases h p) as [E' | (i & Hi & _ & _ & _ & E')];
    rewrite E' in E; injection E as <-; [reflexivity |].
  simpl. apply test_bit_clear_bit_ne. lia.
Qed.

Lemma zero_handle_wf a : 0 < a -> handle_wf (zero_handle a).
Proof.
  intros Ha. unfold zero_handle, handle_wf. simpl.
  rewrite !length_replicate. split; [exact Ha |]. split; [reflexivity |].
  split; [reflexivity |]. apply Forall_replicate. unfold is_byte. lia.
Qed.

Lemma reachable_inv h :
  reachable NB BS h -> handle_wf h /\ padding_clear NB (bitmap h).
Proof.
  induction 1 as [h h' Hwf E | h h' r Hr [Hwf Hpad] E | h h' p Hr [Hwf Hpad] E].
  - destruct Hwf as (Ha & Hm & Hb & Hby).
    rewrite pool_init_zero in E by assumption. injection E as <-.
    split; [now apply zero_handle_wf |]. intros j _. apply test_bit_replicate.
  - split; [exact (pool_alloc_wf h h' r Hwf E) |].
    intros j Hj. rewrite (pool_alloc_high h h' r j E Hj). now apply Hpad.
  - split; [exact (pool_free_wf h h' p Hwf E) |].
    intros j Hj. rewrite (pool_free_high h h' p j E Hj). now apply Hpad.
Qed.

Lemma clear_bits_in_replicate m i n : clear_bits_in (replicate m 0) i n = n.
Proof.
  unfold clear_bits_in. revert i. induction n as [|n IH]; intros i; [reflexivity |].
  cbn [seq List.filter]. rewrite test_bit_replicate. simpl. now rewrite IH.
Qed.

Lemma NB_lt_u32 : Z.of_nat NB < 2 ^ 32.
Proof. pose proof N_le. lia. Qed.

(** ** The claims *)

(** C1: on a handle with a free block, [pool_alloc] returns the address of the
    lowest-indexed free block [storage_base + i * POOL_BLOCK_SIZE] and sets
    its bit (and nothing else is written); in particular, after a
    [pool_free], the next [pool_alloc] returns the lowest free block of the
    handle as it is after the free, whichever block was freed. *)
Theorem pool_alloc_lowest_free :
  (forall h, handle_wf h ->
     (exists j, (j < NB)%nat /\ test_bit (bitmap h) j = 0) ->
     exists i, (i < NB)%nat /\ test_bit (bitmap h) i = 0 /\
       (forall k, (k < i)%nat -> test_bit (bitmap h) k = 1) /\
       pool_alloc NB BS (Some h) =
         (Some (mkPool (addr h) (memory h) (set_bit (bitmap h) i)), block_addr h i) /\
       test_bit (set_bit (bitmap h) i) i = 1) /\
  (forall h p h', handle_wf h -> pool_free NB BS (Some h) p = Some h' ->
     (exists j, (j < NB)%nat /\ test_bit (bitmap h') j = 0) ->
     exists i, (i < NB)%nat /\ test_bit (bitmap h') i = 0 /\
       (forall k, (k < i)%nat -> test_bit (bitmap h') k = 1) /\
       snd (pool_alloc NB BS (Some h')) = block_addr h i).
Proof.
  split.
  - intros h Hwf Hex. destruct (lowest_clear _ Hex) as (i & Hi & Hi0 & Hlow).
    exists i. split; [exact Hi |]. split; [exact Hi0 |]. split; [exact Hlow |].
    split; [now apply pool_alloc_found |].
    apply test_bit_set_bit_eq. destruct Hwf as (_ & _ & -> & _). now apply index_in_bitmap.
  - intros h p h' Hwf E Hex. destruct (lowest_clear _ Hex) as (i & Hi & Hi0 & Hlow).
    exists i. split; [exact Hi |]. split; [exact Hi0 |]. split; [exact Hlow |].
    rewrite (pool_alloc_found h' i) by assumption. simpl. unfold block_addr.
    destruct (pool_free_cases h p) as [E' | (i' & _ & _ & _ & _ & E')];
      rewrite E' in E; now injection E as <-.
Qed.

(** C2: from a handle whose blocks are all free, [POOL_NUM_BLOCKS]
    consecutive [pool_alloc] calls return distinct non-NULL pointers, and
    the next one returns NULL and leaves the handle as it is; on any handle
    whose blocks are all allocated, [pool_alloc] returns NULL and leaves the
    handle unchanged. *)
Theorem pool_alloc_exhaustion :
  (forall h, handle_wf h -> (forall j, (j < NB)%nat -> test_bit (bitmap h) j = 0) ->
     length (snd (pool_alloc_times NB BS NB (Some h))) = NB /\
     NoDup (snd (pool_alloc_times NB BS NB (Some h))) /\
     Forall (fun p => p <> NULL_PTR) (snd (pool_alloc_times NB BS NB (Some h))) /\
     pool_alloc NB BS (fst (pool_alloc_times NB BS NB (Some h))) =
       (fst (pool_alloc_times NB BS NB (Some h)), NULL_PTR)) /\
  (forall h, (forall j, (j < NB)%nat -> test_bit (bitmap h) j = 1) ->
     pool_alloc NB BS (Some h) = (Some h, NULL_PTR)).
Proof.
  split; [| exact pool_alloc_full].
  intros h Hwf Hfree.
  destruct (pool_alloc_times_prefix NB 0 h) as (h' & E & _ & _ & Hset & _);
    [exact Hwf | lia | intros; lia | intros j Hj; apply Hfree; lia |].
  rewrite E. simpl fst; simpl snd.
  split; [now rewrite length_map, length_seq |].
  split; [apply (NoDup_fmap_2_strong (block_addr h)); [intros x y _ _; apply block_addr_inj | apply NoDup_seq] |].
  split.
  - apply Forall_forall. intros p Hp. apply list_elem_of_In, in_map_iff in Hp as (i & <- & _).
    unfold block_addr, NULL_PTR. destruct Hwf as (Ha & _). lia.
  - apply pool_alloc_full. intros j Hj. apply Hset. lia.
Qed.

(** C3: [pool_init] on any handle zeroes every byte of the memory and of the
    bitmap, after which [pool_get_free_count] is [POOL_NUM_BLOCKS]; calling
    it again gives the same all-free handle. *)
Theorem pool_init_resets h :
  handle_wf h ->
  pool_init NB BS (Some h) = Some (zero_handle (addr h)) /\
  pool_get_free_count NB (pool_init NB BS (Some h)) = Z.of_nat NB /\
  pool_init NB BS (pool_init NB BS (Some h)) = pool_init NB BS (Some h).
Proof.
  intros (Ha & Hm & Hb & _).
  assert (E : pool_init NB BS (Some h) = Some (zero_handle (addr h)))
    by (now apply pool_init_zero).
  split; [exact E |]. rewrite E. split.
  - simpl. pose proof NB_lt_u32.
    rewrite free_count_loop_spec by lia. now rewrite clear_bits_in_replicate.
  - destruct (zero_handle_wf (addr h) Ha) as (_ & Hm' & Hb' & _).
    rewrite pool_init_zero by assumption. reflexivity.
Qed.

(** C4: [pool_free] with a NULL pointer, a pointer below the memory, at or
    past its end, or not a multiple of [POOL_BLOCK_SIZE] away from its start,
    returns without changing anything (so the free count is unchanged); with a
    NULL handle it does nothing either. *)
Theorem pool_free_invalid_noop :
  (forall p, pool_free NB BS None p = None) /\
  (forall h p,
     p = NULL_PTR \/ p < addr h \/ addr h + Z.of_nat (NB * BS) <= p \/
     (p - addr h) mod Z.of_nat BS <> 0 ->
     pool_free NB BS (Some h) p = Some h /\
     pool_get_free_count NB (pool_free NB BS (Some h) p) = pool_get_free_count NB (Some h)).
Proof.
  split; [reflexivity |].
  intros h p Hinv.
  assert (E : pool_free NB BS (Some h) p = Some h).
  { destruct (pool_free_cases h p) as [E | (i & Hi & Hn & Hp & _ & _)]; [exact E |].
    exfalso. unfold block_addr in Hp.
    assert (Z.of_nat i * Z.of_nat BS < Z.of_nat (NB * BS)) by nia.
    destruct Hinv as [Hinv | [Hinv | [Hinv | Hinv]]]; [congruence | lia | lia |].
    apply Hinv. replace (p - addr h) with (Z.of_nat i * Z.of_nat BS) by lia.
    apply Z.mod_mul. lia. }
  split; [exact E | now rewrite E].
Qed.

(** C5: freeing a valid block pointer whose bit is already clear changes
    nothing, and freeing the same pointer twice is the same as freeing it
    once, so the second call leaves the free count as the first left it. *)
Theorem pool_free_idempotent h :
  handle_wf h ->
  (forall i, (i < NB)%nat -> test_bit (bitmap h) i = 0 ->
     pool_free NB BS (Some h) (block_addr h i) = Some h) /\
  (forall p,
     pool_free NB BS (pool_free NB BS (Some h) p) p = pool_free NB BS (Some h) p /\
     pool_get_free_count NB (pool_free NB BS (pool_free NB BS (Some h) p) p) =
       pool_get_free_count NB (pool_free NB BS (Some h) p)).
Proof.
  intros Hwf. split.
  - intros i Hi Hi0.
    destruct (pool_free_cases h (block_addr h i)) as [E | (i' & _ & _ & Hp & H1 & _)];
      [exact E |].
    apply block_addr_inj in Hp as <-. congruence.
  - intros p.
    assert (E2 : pool_free NB BS (pool_free NB BS (Some h) p) p = pool_free NB BS (Some h) p).
    { destruct (pool_free_cases h p) as [E | (i & Hi & _ & Hp & _ & E)]; rewrite E;
        [exact E |].
      set (h1 := mkPool (addr h) (memory h) (clear_bit (bitmap h) i)).
      destruct (pool_free_cases h1 p) as [E1 | (i' & _ & _ & Hp' & H1 & _)]; [exact E1 |].
      exfalso. assert (i' = i) as ->.
      { apply (block_addr_inj h). rewrite <- Hp, Hp'. reflexivity. }
      unfold h1 in H1; simpl in H1.
      rewrite test_bit_clear_bit_eq in H1; [discriminate |].
      destruct Hwf as (_ & _ & -> & _). now apply index_in_bitmap. }
    split; [exact E2 | now rewrite E2].
Qed.

(** C6: a successful [pool_alloc] sets the bit of one block, which was clear,
    returns that block's address, and changes no other bit of the bitmap and
    no byte of the memory (the block's old content is left as it was). *)
Theorem pool_alloc_frame h h' p :
  handle_wf h -> pool_alloc NB BS (Some h) = (Some h', p) -> p <> NULL_PTR ->
  exists i, (i < NB)%nat /\ p = block_addr h i /\
    test_bit (bitmap h) i = 0 /\ test_bit (bitmap h') i = 1 /\
    (forall j, j <> i -> test_bit (bitmap h') j = test_bit (bitmap h) j) /\
    memory h' = memory h /\ addr h' = addr h /\ length (bitmap h') = length (bitmap h).
Proof.
  intros Hwf E Hp.
  destruct (clear_or_full (bitmap h)) as [(i & Hi & Hi0 & Hlow) | Hall].
  - rewrite (pool_alloc_found h i) in E by assumption. injection E as <- <-.
    exists i. simpl. split; [exact Hi |]. split; [reflexivity |]. split; [exact Hi0 |].
    split; [apply test_bit_set_bit_eq; destruct Hwf as (_ & _ & -> & _);
            now apply index_in_bitmap |].
    split; [intros j Hj; now apply test_bit_set_bit_ne |].
    split; [reflexivity |]. split; [reflexivity | apply length_set_bit].
  - rewrite pool_alloc_full in E by exact Hall. injection E as _ <-. congruence.
Qed.

(** C7: [pool_get_free_count] returns the number of clear bits among the
    indices [0 .. POOL_NUM_BLOCKS - 1] (it only reads the [const] handle),
    and 0 for a NULL handle. *)
Theorem pool_get_free_count_spec p_handle :
  pool_get_free_count NB p_handle =
    match p_handle with
    | None => 0
    | Some h => Z.of_nat (clear_bits_in (bitmap h) 0 NB)
    end.
Proof.
  destruct p_handle as [h |]; [| reflexivity].
  simpl. pose proof NB_lt_u32. rewrite free_count_loop_spec by lia. lia.
Qed.

(** C8: the bitmap has [ceil(POOL_NUM_BLOCKS / 8)] bytes; [pool_alloc] and
    [pool_free] never write a bit at an index [>= POOL_NUM_BLOCKS], so on every
    handle reachable from [pool_init] the bitmap keeps its length and its
    padding bits stay 0; and the scans of [find_first_free] and
    [pool_get_free_count] only depend on the bits below [POOL_NUM_BLOCKS]. *)
Theorem bitmap_padding_invariant :
  (NB <= 8 * BITMAP_BYTES NB < NB + 8)%nat /\
  (forall h, reachable NB BS h ->
     length (bitmap h) = BITMAP_BYTES NB /\ padding_clear NB (bitmap h)) /\
  (forall h h' r j, pool_alloc NB BS (Some h) = (Some h', r) -> (NB <= j)%nat ->
     test_bit (bitmap h') j = test_bit (bitmap h) j) /\
  (forall h h' p j, pool_free NB BS (Some h) p = Some h' -> (NB <= j)%nat ->
     test_bit (bitmap h') j = test_bit (bitmap h) j) /\
  (forall h1 h2,
     (forall j, (j < NB)%nat -> test_bit (bitmap h1) j = test_bit (bitmap h2) j) ->
     find_first_free (bitmap h1) NB = find_first_free (bitmap h2) NB /\
     pool_get_free_count NB (Some h1) = pool_get_free_count NB (Some h2)).
Proof.
  split.
  { unfold BITMAP_BYTES.
    pose proof (Nat.div_mod_eq (NB + 7) 8). pose proof (Nat.mod_upper_bound (NB + 7) 8).
    lia. }
  split.
  { intros h Hr. destruct (reachable_inv h Hr) as ((_ & _ & Hb & _) & Hpad). auto. }
  split; [exact pool_alloc_high |].
  split; [exact pool_free_high |].
  intros h1 h2 Hag. split.
  - apply find_first_free_loop_agree. intros k Hk. apply Hag. lia.
  - apply free_count_loop_agree. intros k Hk. apply Hag. lia.
Qed.

(** C9: [pool_free] never writes to the memory array, and changes at most
    one bit of the bitmap: the bit of block [i < POOL_NUM_BLOCKS] whose
    address was passed, from set to clear. *)
Theorem pool_free_frame h p h' :
  pool_free NB BS (Some h) p = Some h' ->
  addr h' = addr h /\ memory h' = memory h /\ length (bitmap h') = length (bitmap h) /\
  exists i, (forall j, j <> i -> test_bit (bitmap h') j = test_bit (bitmap h) j) /\
    (test_bit (bitmap h') i <> test_bit (bitmap h) i ->
     (i < NB)%nat /\ p = block_addr h i /\
     test_bit (bitmap h) i = 1 /\ test_bit (bitmap h') i = 0).
Proof.
  intros E.
  destruct (pool_free_cases h p) as [E' | (i & Hi & _ & Hp & H1 & E')];
    rewrite E' in E; injection E as <-.
  - split; [reflexivity |]. split; [reflexivity |]. split; [reflexivity |].
    exists O. split; [reflexivity | intros Hne; congruence].
  - simpl. split; [reflexivity |]. split; [reflexivity |].
    split; [apply length_clear_bit |].
    exists i. split; [intros j Hj; now apply test_bit_clear_bit_ne |].
    intros Hne. split; [exact Hi |]. split; [exact Hp |]. split; [exact H1 |].
    destruct (test_bit_cases (clear_bit (bitmap h) i) i); congruence.
Qed.

(** C10: when [p_block] passes the bounds check of [pool_free], the block
    index [(p_block - pool_start) / POOL_BLOCK_SIZE] is below
    [POOL_NUM_BLOCKS], so the [return] at line 222 is never reached. *)
Theorem pool_free_index_check_redundant h p :
  addr h <= p < addr h + Z.of_nat (NB * BS) ->
  u32 (Z.quot (p - addr h) (Z.of_nat BS)) < Z.of_nat NB /\
  snd (pool_free_exit NB BS (Some h) p) <> Exit_index_range.
Proof.
  intros Hb.
  set (q := Z.quot (p - addr h) (Z.of_nat BS)).
  pose proof (Z.quot_rem' (p - addr h) (Z.of_nat BS)) as Hqr. fold q in Hqr.
  assert (0 <= Z.rem (p - addr h) (Z.of_nat BS)) by (apply Z.rem_nonneg; lia).
  assert (0 <= q) by (apply Z.quot_pos; lia).
  assert (q < Z.of_nat NB) by nia.
  pose proof N_le.
  assert (Hq : u32 q = q) by (unfold u32; apply Z.mod_small; lia).
  split; [lia |].
  unfold pool_free_exit.
  destruct (Z.eqb NULL_PTR p); [discriminate |].
  replace ((p <? addr h) || (addr h + Z.of_nat (NB * BS) <=? p)) with false
    by (symmetry; apply orb_false_iff; split; [apply Z.ltb_ge | apply Z.leb_gt]; lia).
  fold q. rewrite Hq.
  destruct (negb _); [discriminate |].
  replace (Z.of_nat NB <=? q) with false by (symmetry; apply Z.leb_gt; lia).
  destruct (negb _); discriminate.
Qed.

End Proofs.

(** ** The results at the configuration of src/cfg/pool_cfg.h *)

Ltac cfg_wf := unfold handle_wf, is_byte; simpl; repeat constructor; lia.

Ltac small_index := intros j Hj; destruct j as [|[|[|[|j]]]]; [reflexivity .. | lia].

Lemma pool_alloc_lowest_free_witness :
  (0 < 32)%nat /\ Z.of_nat (4 * 32) < 2 ^ 31 /\ handle_wf 4 32 demo_pool /\
  (exists j, (j < 4)%nat /\ test_bit (bitmap demo_pool) j = 0) /\
  exists i, (i < 4)%nat /\ test_bit (bitmap demo_pool) i = 0 /\
    pool_alloc 4 32 (Some demo_pool) =
      (Some (mkPool 4096 (replicate 128 7) (set_bit [5] i)), block_addr 32 demo_pool i).
Proof.
  assert (Hex : exists j, (j < 4)%nat /\ test_bit (bitmap demo_pool) j = 0)
    by (exists 1%nat; split; [lia | reflexivity]).
  split; [lia |]. split; [lia |]. split; [cfg_wf |]. split; [exact Hex |].
  destruct (proj1 (pool_alloc_lowest_free 4 32 ltac:(lia) ltac:(simpl; lia))
              demo_pool ltac:(cfg_wf) Hex) as (i & Hi & Hi0 & _ & E & _).
  exists i. split; [exact Hi |]. split; [exact Hi0 | exact E].
Defined.

Lemma pool_alloc_exhaustion_witness :
  (0 < 32)%nat /\ Z.of_nat (4 * 32) < 2 ^ 31 /\ handle_wf 4 32 free_pool /\
  (forall j, (j < 4)%nat -> test_bit (bitmap free_pool) j = 0) /\
  NoDup (snd (pool_alloc_times 4 32 4 (Some free_pool))) /\
  (forall j, (j < 4)%nat -> test_bit (bitmap full_pool) j = 1) /\
  pool_alloc 4 32 (Some full_pool) = (Some full_pool, NULL_PTR).
Proof.
  destruct (pool_alloc_exhaustion 4 32 ltac:(lia) ltac:(simpl; lia)) as [Hfree Hfull].
  assert (Hf : forall j, (j < 4)%nat -> test_bit (bitmap free_pool) j = 0) by small_index.
  assert (Hu : forall j, (j < 4)%nat -> test_bit (bitmap full_pool) j = 1) by small_index.
  split; [lia |]. split; [lia |]. split; [cfg_wf |]. split; [exact Hf |].
  split; [apply (Hfree free_pool ltac:(cfg_wf) Hf) |].
  split; [exact Hu | exact (Hfull full_pool Hu)].
Defined.

Lemma pool_init_resets_witness :
  (0 < 32)%nat /\ Z.of_nat (4 * 32) < 2 ^ 31 /\ handle_wf 4 32 demo_pool /\
  pool_init 4 32 (Some demo_pool) = Some (zero_handle 4 32 4096) /\
  pool_get_free_count 4 (pool_init 4 32 (Some demo_pool)) = 4.
Proof.
  destruct (pool_init_resets 4 32 ltac:(lia) ltac:(simpl; lia) demo_pool ltac:(cfg_wf))
    as (E & C & _).
  split; [lia |]. split; [lia |]. split; [cfg_wf |]. split; [exact E | exact C].
Defined.

Lemma pool_free_invalid_noop_witness :
  (0 < 32)%nat /\ Z.of_nat (4 * 32) < 2 ^ 31 /\
  (4097 - addr demo_pool) mod Z.of_nat 32 <> 0 /\
  pool_free 4 32 (Some demo_pool) 4097 = Some demo_pool.
Proof.
  assert (Hm : (4097 - addr demo_pool) mod Z.of_nat 32 <> 0) by (vm_compute; discriminate).
  split; [lia |]. split; [lia |]. split; [exact Hm |].
  apply (proj2 (pool_free_invalid_noop 4 32 ltac:(lia) ltac:(simpl; lia)) demo_pool 4097).
  right. right. right. exact Hm.
Defined.

Lemma pool_free_idempotent_witness :
  (0 < 32)%nat /\ Z.of_nat (4 * 32) < 2 ^ 31 /\ handle_wf 4 32 demo_pool /\
  pool_free 4 32 (pool_free 4 32 (Some demo_pool) 4160) 4160 =
    pool_free 4 32 (Some demo_pool) 4160.
Proof.
  split; [lia |]. split; [lia |]. split; [cfg_wf |].
  apply (proj2 (pool_free_idempotent 4 32 ltac:(lia) ltac:(simpl; lia)
                  demo_pool ltac:(cfg_wf)) 4160).
Defined.

Lemma pool_alloc_frame_witness :
  (0 < 32)%nat /\ Z.of_nat (4 * 32) < 2 ^ 31 /\ handle_wf 4 32 demo_pool /\
  pool_alloc 4 32 (Some demo_pool) = (Some (mkPool 4096 (replicate 128 7) [7]), 4128) /\
  4128 <> NULL_PTR /\
  exists i, (i < 4)%nat /\ 4128 = block_addr 32 demo_pool i /\
    test_bit (bitmap demo_pool) i = 0.
Proof.
  assert (E : pool_alloc 4 32 (Some demo_pool) = (Some (mkPool 4096 (replicate 128 7) [7]), 4128))
    by reflexivity.
  assert (Hn : 4128 <> NULL_PTR) by discriminate.
  split; [lia |]. split; [lia |]. split; [cfg_wf |]. split; [exact E |]. split; [exact Hn |].
  destruct (pool_alloc_frame 4 32 ltac:(lia) ltac:(simpl; lia) demo_pool _ 4128
              ltac:(cfg_wf) E Hn) as (i & Hi & Hp & Hi0 & _).
  exists i. split; [exact Hi |]. split; [exact Hp | exact Hi0].
Defined.

Lemma pool_get_free_count_spec_witness :
  (0 < 32)%nat /\ Z.of_nat (4 * 32) < 2 ^ 31 /\
  pool_get_free_count 4 (Some demo_pool) = Z.of_nat (clear_bits_in [5] 0 4).
Proof.
  split; [lia |]. split; [lia |].
  apply (pool_get_free_count_spec 4 32 ltac:(lia) ltac:(simpl; lia) (Some demo_pool)).
Defined.

Lemma bitmap_padding_invariant_witness :
  (0 < 32)%nat /\ Z.of_nat (4 * 32) < 2 ^ 31 /\ (4 <= 8 * BITMAP_BYTES 4 < 4 + 8)%nat.
Proof.
  split; [lia |]. split; [lia |].
  apply (proj1 (bitmap_padding_invariant 4 32 ltac:(lia) ltac:(simpl; lia))).
Defined.

Lemma pool_free_frame_witness :
  (0 < 32)%nat /\ Z.of_nat (4 * 32) < 2 ^ 31 /\
  pool_free 4 32 (Some demo_pool) 4160 = Some (mkPool 4096 (replicate 128 7) [1]) /\
  memory (mkPool 4096 (replicate 128 7) [1]) = memory demo_pool.
Proof.
  assert (E : pool_free 4 32 (Some demo_pool) 4160 = Some (mkPool 4096 (replicate 128 7) [1]))
    by reflexivity.
  split; [lia |]. split; [lia |]. split; [exact E |].
  apply (pool_free_frame 4 32 ltac:(lia) ltac:(simpl; lia) demo_pool 4160 _ E).
Defined.

Lemma pool_free_index_check_redundant_witness :
  (0 < 32)%nat /\ Z.of_nat (4 * 32) < 2 ^ 31 /\
  addr demo_pool <= 4200 < addr demo_pool + Z.of_nat (4 * 32) /\
  snd (pool_free_exit 4 32 (Some demo_pool) 4200) <> Exit_index_range.
Proof.
  assert (Hb : addr demo_pool <= 4200 < addr demo_pool + Z.of_nat (4 * 32)) by (simpl; lia).
  split; [lia |]. split; [lia |]. split; [exact Hb |].
  apply (pool_free_index_check_redundant 4 32 ltac:(lia) ltac:(simpl; lia) demo_pool 4200 Hb).
Defined.

(** ** Further properties of the code *)

Lemma byte_testbit_high b n : is_byte b -> 8 <= n -> Z.testbit b n = false.
Proof.
  intros Hb Hn. unfold is_byte in Hb.
  rewrite <- (Z.mod_small b (2 ^ 8)) by lia. apply Z.mod_pow2_bits_high. lia.
Qed.

Lemma byte_ext x y :
  is_byte x -> is_byte y -> (forall k, 0 <= k < 8 -> Z.testbit x k = Z.testbit y k) -> x = y.
Proof.
  intros Hx Hy H. apply Z.bits_inj'. intros n Hn.
  destruct (Z.lt_ge_cases n 8); [apply H; lia |].
  rewrite !byte_testbit_high by auto. reflexivity.
Qed.

Lemma clear_set_bit bm i :
  Forall is_byte bm -> (i / 8 < length bm)%nat -> test_bit bm i = 0 ->
  clear_bit (set_bit bm i) i = bm.
Proof.
  intros Hby Hlen H0. apply test_bit_0 in H0. unfold bit, byte_at in H0.
  destruct (lookup_lt_is_Some_2 bm (i / 8) Hlen) as [b Hb]. rewrite Hb in H0. cbn in H0.
  apply list_eq. intros k. unfold clear_bit, set_bit, byte_at.
  destruct (decide (k = i / 8)%nat) as [-> | Hne].
  - rewrite list_lookup_insert_eq by (rewrite length_insert; lia).
    rewrite list_lookup_insert_eq by lia. rewrite Hb. cbn [default id]. f_equal.
    apply byte_ext; [apply u8_byte | eapply Forall_lookup_1; eauto |].
    intros n Hn. pose proof (mod8_bound i).
    rewrite u8_testbit, Z.land_spec, Z.lnot_spec, u8_testbit, u8_testbit, Z.lor_spec by lia.
    rewrite Z.shiftl_1_l, Z.pow2_bits_eqb by lia.
    destruct (Z.eqb_spec (Z.of_nat (i mod 8)) n) as [<- |]; simpl.
    + now rewrite H0.
    + now rewrite orb_false_r, andb_true_r.
  - rewrite !list_lookup_insert_ne by congruence. reflexivity.
Qed.

Lemma set_clear_bit bm i :
  Forall is_byte bm -> (i / 8 < length bm)%nat -> test_bit bm i = 1 ->
  set_bit (clear_bit bm i) i = bm.
Proof.
  intros Hby Hlen H1. apply test_bit_1 in H1. unfold bit, byte_at in H1.
  destruct (lookup_lt_is_Some_2 bm (i / 8) Hlen) as [b Hb]. rewrite Hb in H1. cbn in H1.
  apply list_eq. intros k. unfold clear_bit, set_bit, byte_at.
  destruct (decide (k = i / 8)%nat) as [-> | Hne].
  - rewrite list_lookup_insert_eq by (rewrite length_insert; lia).
    rewrite list_lookup_insert_eq by lia. rewrite Hb. cbn [default id]. f_equal.
    apply byte_ext; [apply u8_byte | eapply Forall_lookup_1; eauto |].
    intros n Hn. pose proof (mod8_bound i).
    rewrite u8_testbit, Z.lor_spec, u8_testbit, Z.land_spec, Z.lnot_spec, u8_testbit by lia.
    rewrite Z.shiftl_1_l, Z.pow2_bits_eqb by lia.
    destruct (Z.eqb_spec (Z.of_nat (i mod 8)) n) as [<- |]; simpl.
    + now rewrite H1, orb_true_r.
    + now rewrite andb_true_r, orb_false_r.
  - rewrite !list_lookup_insert_ne by congruence. reflexivity.
Qed.

Lemma clear_bits_in_agree bm1 bm2 lo n :
  (forall k, (lo <= k < lo + n)%nat -> test_bit bm1 k = test_bit bm2 k) ->
  clear_bits_in bm1 lo n = clear_bits_in bm2 lo n.
Proof.
  unfold clear_bits_in. revert lo. induction n as [|n IH]; intros lo Hag; [reflexivity |].
  cbn [seq List.filter]. rewrite (Hag lo) by lia.
  destruct (Z.eqb (test_bit bm2 lo) 0); simpl; rewrite (IH (S lo)) by (intros; apply Hag; lia);
    reflexivity.
Qed.

Lemma clear_bits_in_flip bm bm' i lo n :
  (forall j, j <> i -> test_bit bm' j = test_bit bm j) -> (lo <= i < lo + n)%nat ->
  test_bit bm i = 0 -> test_bit bm' i = 1 ->
  clear_bits_in bm lo n = S (clear_bits_in bm' lo n).
Proof.
  intros Hne. revert lo. induction n as [|n IH]; intros lo Hi H0 H1; [lia |].
  unfold clear_bits_in in *. cbn [seq List.filter].
  destruct (decide (lo = i)) as [-> | Hlo].
  - rewrite H0, H1. simpl. f_equal.
    apply clear_bits_in_agree. intros k Hk. symmetry. apply Hne. lia.
  - rewrite (Hne lo Hlo). destruct (Z.eqb (test_bit bm lo) 0); simpl;
      [f_equal |]; apply IH; auto; lia.
Qed.

Lemma clear_bits_in_all_set bm lo n :
  (forall k, (lo <= k < lo + n)%nat -> test_bit bm k = 1) -> clear_bits_in bm lo n = O.
Proof.
  unfold clear_bits_in. revert lo. induction n as [|n IH]; intros lo H; [reflexivity |].
  cbn [seq List.filter]. rewrite H by lia. simpl. apply IH. intros; apply H; lia.
Qed.

Lemma clear_bits_in_le bm lo n : (clear_bits_in bm lo n <= n)%nat.
Proof.
  unfold clear_bits_in. rewrite <- (length_seq n lo) at 2. apply filter_length_le.
Qed.

Section Composition.

Variables NB BS : nat.
Hypothesis HS : (0 < BS)%nat.
Hypothesis Hfit : Z.of_nat (NB * BS) < 2 ^ 31.

Local Abbreviation handle_wf := (handle_wf NB BS).
Local Abbreviation block_addr := (block_addr BS).

(** [pool_free] on the address of block [i]: every check passes. *)
Lemma pool_free_exit_block h i :
  0 < addr h -> (i < NB)%nat ->
  pool_free_exit NB BS (Some h) (block_addr h i) =
    if Z.eqb (test_bit (bitmap h) i) 0 then (Some h, Exit_already_free)
    else (Some (mkPool (addr h) (memory h) (clear_bit (bitmap h) i)), Exit_cleared).
Proof.
  intros Ha Hi. pose proof (N_le NB BS HS Hfit).
  assert (Hlt : Z.of_nat i * Z.of_nat BS < Z.of_nat (NB * BS)) by nia.
  unfold pool_free_exit, block_addr.
  replace (Z.eqb NULL_PTR (addr h + Z.of_nat i * Z.of_nat BS)) with false
    by (symmetry; apply Z.eqb_neq; unfold NULL_PTR; nia).
  replace ((addr h + Z.of_nat i * Z.of_nat BS <? addr h) ||
           (addr h + Z.of_nat (NB * BS) <=? addr h + Z.of_nat i * Z.of_nat BS)) with false
    by (symmetry; apply orb_false_iff; split; [apply Z.ltb_ge | apply Z.leb_gt]; nia).
  replace (addr h + Z.of_nat i * Z.of_nat BS - addr h) with (Z.of_nat i * Z.of_nat BS) by lia.
  rewrite Z.quot_mul, Z.rem_mul by lia. cbn [Z.eqb negb].
  unfold u32. rewrite Z.mod_small by lia.
  replace (Z.of_nat NB <=? Z.of_nat i) with false by (symmetry; apply Z.leb_gt; lia).
  rewrite Nat2Z.id.
  destruct (Z.eqb (test_bit (bitmap h) i) 0); reflexivity.
Qed.

Lemma pool_get_free_count_count h :
  pool_get_free_count NB (Some h) = Z.of_nat (clear_bits_in (bitmap h) 0 NB).
Proof.
  simpl. pose proof (NB_lt_u32 NB BS HS Hfit).
  rewrite free_count_loop_spec by lia. lia.
Qed.

Lemma wf_index h i : handle_wf h -> (i < NB)%nat -> (i / 8 < length (bitmap h))%nat.
Proof. intros (_ & _ & -> & _) Hi. now apply (index_in_bitmap NB BS). Qed.

End Composition.

(** [mem_set] (helper_routines.c): with a NULL destination it returns NULL;
    otherwise it returns the destination with its first [num] bytes set to
    [(uint8)value] and the rest untouched. *)
Theorem mem_set_spec :
  (forall value num, mem_set None value num = None) /\
  (forall bytes value num, (num <= length bytes)%nat ->
     mem_set (Some bytes) value num = Some (replicate num (u8 value) ++ drop num bytes)).
Proof.
  split; [reflexivity |].
  intros bytes value num Hn. unfold mem_set. f_equal.
  revert num Hn. induction bytes as [|b bytes IH]; intros num Hn.
  - destruct num; [reflexivity | simpl in Hn; lia].
  - destruct num as [|num]; [reflexivity |]. simpl in *. rewrite IH by lia. reflexivity.
Qed.

(** [set_bit] then [clear_bit] on a bit that was clear restores the bitmap
    byte for byte, and [clear_bit] then [set_bit] on a bit that was set does
    too (for an index inside the bitmap). *)
Theorem bitmap_set_clear_roundtrip bm i :
  Forall is_byte bm -> (i / 8 < length bm)%nat ->
  (test_bit bm i = 0 -> clear_bit (set_bit bm i) i = bm) /\
  (test_bit bm i = 1 -> set_bit (clear_bit bm i) i = bm).
Proof.
  intros Hby Hlen. split; intros H.
  - now apply clear_set_bit.
  - now apply set_clear_bit.
Qed.

(** [test_bit] always returns 0 or 1, as its documentation says. *)
Theorem test_bit_0_or_1 bm index : test_bit bm index = 0 \/ test_bit bm index = 1.
Proof.
  rewrite test_bit_b2z. destruct (bit bm index); [right | left]; reflexivity.
Qed.

(** [find_first_free bitmap n] (for [n <= 2^31]) returns -1 exactly when the
    bits [0 .. n-1] are all set, and otherwise the lowest index below [n]
    whose bit is clear. *)
Theorem find_first_free_spec bm n :
  Z.of_nat n <= 2 ^ 31 ->
  (find_first_free bm n = -1 <-> forall k, (k < n)%nat -> test_bit bm k = 1) /\
  (find_first_free bm n <> -1 ->
   exists i, find_first_free bm n = Z.of_nat i /\ (i < n)%nat /\ test_bit bm i = 0 /\
     forall k, (k < i)%nat -> test_bit bm k = 1).
Proof.
  intros Hn. unfold find_first_free.
  destruct (find_first_free_loop_cases bm 0 n) as [[Hr Hall] | [i (Hi & Hr & Hi0 & Hlow)]];
    [lia | |].
  - rewrite Hr. split; [split; [intros _ k Hk; apply Hall; lia | reflexivity] |].
    intros Hne. congruence.
  - rewrite Hr. split.
    + split; [lia |]. intros Hall. rewrite Hall in Hi0 by lia. discriminate.
    + intros _. exists i. split; [reflexivity |]. split; [lia |]. split; [exact Hi0 |].
      intros k Hk. apply Hlow. lia.
Qed.

Section Composition_results.

Variables NB BS : nat.
Hypothesis HS : (0 < BS)%nat.
Hypothesis Hfit : Z.of_nat (NB * BS) < 2 ^ 31.

Local Abbreviation handle_wf := (handle_wf NB BS).
Local Abbreviation block_addr := (block_addr BS).

(** A successful [pool_alloc] lowers [pool_get_free_count] by exactly one; a
    failed one (NULL) happens only when the count is 0, and changes nothing. *)
Theorem pool_alloc_free_count h h' p :
  handle_wf h -> pool_alloc NB BS (Some h) = (Some h', p) ->
  (p <> NULL_PTR ->
     pool_get_free_count NB (Some h') = pool_get_free_count NB (Some h) - 1) /\
  (p = NULL_PTR -> h' = h /\ pool_get_free_count NB (Some h) = 0).
Proof.
  intros Hwf E. pose proof (NB_lt_u32 NB BS HS Hfit).
  rewrite !(pool_get_free_count_count NB BS HS Hfit).
  destruct (clear_or_full NB BS HS Hfit (bitmap h)) as [(i & Hi & Hi0 & Hlow) | Hall].
  - rewrite (pool_alloc_found NB BS HS Hfit h i) in E by assumption.
    injection E as <- <-. simpl bitmap.
    assert (Hp : block_addr h i <> NULL_PTR)
      by (destruct Hwf as (Ha & _); unfold block_addr, NULL_PTR; lia).
    split; [intros _ | intros Hn; congruence].
    rewrite (clear_bits_in_flip (bitmap h) (set_bit (bitmap h) i) i 0 NB).
    + lia.
    + intros j Hj. now apply test_bit_set_bit_ne.
    + lia.
    + exact Hi0.
    + apply test_bit_set_bit_eq. now apply (wf_index NB BS).
  - rewrite (pool_alloc_full NB BS HS Hfit h Hall) in E. injection E as <- <-.
    split; [unfold NULL_PTR; congruence |]. intros _. split; [reflexivity |].
    rewrite clear_bits_in_all_set by (intros k Hk; apply Hall; lia). reflexivity.
Qed.

(** [pool_free] raises [pool_get_free_count] by one when it clears a bit,
    which it does exactly when given the address of an allocated block
    [i < POOL_NUM_BLOCKS]; on any other pointer the handle is unchanged. *)
Theorem pool_free_free_count h p :
  handle_wf h ->
  (forall i, (i < NB)%nat -> p = block_addr h i -> test_bit (bitmap h) i = 1 ->
     pool_get_free_count NB (pool_free NB BS (Some h) p) =
       pool_get_free_count NB (Some h) + 1) /\
  ((forall i, (i < NB)%nat -> p = block_addr h i -> test_bit (bitmap h) i = 0) ->
     pool_free NB BS (Some h) p = Some h).
Proof.
  intros Hwf. split.
  - intros i Hi -> H1. unfold pool_free.
    rewrite pool_free_exit_block by (auto; now destruct Hwf).
    rewrite H1. cbn [Z.eqb fst].
    rewrite !(pool_get_free_count_count NB BS HS Hfit). simpl bitmap.
    rewrite (clear_bits_in_flip (clear_bit (bitmap h) i) (bitmap h) i 0 NB).
    + lia.
    + intros j Hj. symmetry. now apply test_bit_clear_bit_ne.
    + lia.
    + apply test_bit_clear_bit_eq. now apply (wf_index NB BS).
    + exact H1.
  - intros Hclr.
    destruct (pool_free_cases NB BS HS Hfit h p) as [E | (i & Hi & _ & Hp & H1 & _)];
      [exact E |].
    rewrite (Hclr i Hi Hp) in H1. discriminate.
Qed.

(** Freeing the pointer a successful [pool_alloc] returned gives back the
    handle as it was before the allocation, byte for byte. *)
Theorem pool_alloc_free_roundtrip h h' p :
  handle_wf h -> pool_alloc NB BS (Some h) = (Some h', p) -> p <> NULL_PTR ->
  pool_free NB BS (Some h') p = Some h.
Proof.
  intros Hwf E Hp.
  destruct (clear_or_full NB BS HS Hfit (bitmap h)) as [(i & Hi & Hi0 & Hlow) | Hall].
  - rewrite (pool_alloc_found NB BS HS Hfit h i) in E by assumption.
    injection E as <- <-. unfold pool_free.
    assert (Hlen : (i / 8 < length (bitmap h))%nat) by (eapply wf_index; eauto).
    destruct Hwf as (Ha & _ & _ & Hby).
    change (block_addr h i) with (block_addr (mkPool (addr h) (memory h) (set_bit (bitmap h) i)) i).
    rewrite pool_free_exit_block by (simpl; auto).
    simpl bitmap. rewrite test_bit_set_bit_eq by exact Hlen. cbn [Z.eqb fst].
    rewrite clear_set_bit by auto. now destruct h.
  - rewrite (pool_alloc_full NB BS HS Hfit h Hall) in E. injection E as _ <-. congruence.
Qed.

(** If block [i] is allocated and so are all blocks below it, freeing block
    [i] and allocating again returns block [i] and gives back the handle as
    it was, byte for byte (the test [test_single_allocation] relies on this
    with [i = 0]). *)
Theorem pool_free_alloc_roundtrip h i :
  handle_wf h -> (i < NB)%nat -> test_bit (bitmap h) i = 1 ->
  (forall k, (k < i)%nat -> test_bit (bitmap h) k = 1) ->
  pool_alloc NB BS (pool_free NB BS (Some h) (block_addr h i)) = (Some h, block_addr h i).
Proof.
  intros Hwf Hi H1 Hlow.
  assert (Hlen : (i / 8 < length (bitmap h))%nat) by (eapply wf_index; eauto).
  destruct Hwf as (Ha & _ & _ & Hby).
  unfold pool_free. rewrite pool_free_exit_block by auto.
  rewrite H1. cbn [Z.eqb fst].
  rewrite (pool_alloc_found NB BS HS Hfit _ i Hi); simpl bitmap.
  - rewrite set_clear_bit by auto. now destruct h.
  - now apply test_bit_clear_bit_eq.
  - intros k Hk. rewrite test_bit_clear_bit_ne by lia. now apply Hlow.
Qed.

End Composition_results.

(** ** The demo harness *)

(** Client stores and loads of [uint32] values. *)

Lemma length_write_bytes mem k bs : length (write_bytes mem k bs) = length mem.
Proof.
  revert mem k. induction bs as [|b bs IH]; intros mem k; [reflexivity |].
  simpl. rewrite IH. apply length_insert.
Qed.

Lemma write_bytes_other mem k bs j :
  (j < k \/ k + length bs <= j)%nat -> byte_at (write_bytes mem k bs) j = byte_at mem j.
Proof.
  revert mem k. induction bs as [|b bs IH]; intros mem k Hj; [reflexivity |].
  simpl in *. rewrite IH by lia. unfold byte_at. now rewrite list_lookup_insert_ne by lia.
Qed.

Lemma write_bytes_at mem k bs d :
  (d < length bs)%nat -> (k + length bs <= length mem)%nat ->
  byte_at (write_bytes mem k bs) (k + d) = nth d bs 0.
Proof.
  revert mem k d. induction bs as [|b bs IH]; intros mem k d Hd Hk; simpl in *; [lia |].
  destruct d as [|d].
  - rewrite write_bytes_other by lia. unfold byte_at.
    rewrite Nat.add_0_r, list_lookup_insert_eq by lia. reflexivity.
  - replace (k + S d)%nat with (S k + d)%nat by lia.
    apply IH; [lia | rewrite length_insert; lia].
Qed.

Lemma mod_mul_split a b c : 0 < b -> 0 < c -> a mod (b * c) = a mod b + b * ((a / b) mod c).
Proof.
  intros Hb Hc. symmetry. apply Z.mod_unique with (a / b / c).
  - left. pose proof (Z.mod_pos_bound a b Hb). pose proof (Z.mod_pos_bound (a / b) c Hc). nia.
  - pose proof (Z.div_mod a b ltac:(lia)). pose proof (Z.div_mod (a / b) c ltac:(lia)). nia.
Qed.

Lemma le_value_le_bytes v : le_value (le_bytes v) = u32 v.
Proof.
  unfold le_value, le_bytes, u8, u32. cbn [fold_right].
  rewrite !Z.shiftr_div_pow2 by lia. change 255 with (Z.ones 8). rewrite !Z.land_ones by lia.
  replace (2 ^ 32) with (2 ^ 8 * (2 ^ 8 * (2 ^ 8 * 2 ^ 8))) by reflexivity.
  rewrite !mod_mul_split by lia.
  rewrite !Z.div_div by lia.
  rewrite Z.mul_0_r, Z.add_0_r. reflexivity.
Qed.

Lemma clear_bits_in_all_clear bm lo n :
  (forall k, (lo <= k < lo + n)%nat -> test_bit bm k = 0) -> clear_bits_in bm lo n = n.
Proof.
  unfold clear_bits_in. revert lo. induction n as [|n IH]; intros lo H; [reflexivity |].
  cbn [seq List.filter]. rewrite H by lia. simpl. f_equal. apply IH. intros; apply H; lia.
Qed.

Lemma hbind_step {A B} (m : Harness A) (k : A -> Harness B) s x s' r :
  m s = Some (x, s') -> k x s' = r -> hbind m k s = r.
Proof. unfold hbind. now intros -> <-. Qed.

Lemma assert_pass h c p b :
  b = true -> 0 <= p -> p <= c -> c + 1 < 2 ^ 32 ->
  TEST_ASSERT b (mkTestState h c p) = Some (tt, mkTestState h (c + 1) (p + 1)).
Proof.
  intros -> Hp Hpc Hc'. unfold TEST_ASSERT, u32. cbn.
  rewrite !Z.mod_small by lia. reflexivity.
Qed.


Lemma load_step h c p q v :
  load_u32 h q = Some v -> load q (mkTestState h c p) = Some (v, mkTestState h c p).
Proof. unfold load. cbn. now intros ->. Qed.

Tactic Notation "step" tactic3(tac) :=
  eapply hbind_step; [tac | cbv beta zeta; cbn [set_pool test_pool test_count test_passed addr memory bitmap]].

Ltac bit_simpl Hidx := cbn [bitmap addr memory]; repeat first
  [ rewrite test_bit_set_bit_eq by (repeat (rewrite length_set_bit || rewrite length_clear_bit); apply Hidx; lia)
  | rewrite test_bit_clear_bit_eq by (repeat (rewrite length_set_bit || rewrite length_clear_bit); apply Hidx; lia)
  | rewrite test_bit_set_bit_ne by lia
  | rewrite test_bit_clear_bit_ne by lia ].

Section Harness_proofs.

Variables NB BS : nat.
Hypothesis HS4 : (4 <= BS)%nat.
Hypothesis Hfit : Z.of_nat (NB * BS) < 2 ^ 31.

Local Abbreviation handle_wf := (handle_wf NB BS).
Local Abbreviation block_addr := (block_addr BS).

Lemma BS_pos : (0 < BS)%nat.
Proof. lia. Qed.

Lemma block_offset a i : Z.to_nat (a + Z.of_nat i * Z.of_nat BS - a) = (i * BS)%nat.
Proof. rewrite Z.add_simpl_l, <- Nat2Z.inj_mul. apply Nat2Z.id. Qed.

Lemma block_in_memory a m bm i :
  length m = (NB * BS)%nat -> (i < NB)%nat ->
  in_memory (mkPool a m bm) (a + Z.of_nat i * Z.of_nat BS) = true.
Proof.
  intros Hm Hi. unfold in_memory. cbn [addr memory]. rewrite Hm.
  apply andb_true_iff. split; [apply Z.leb_le; lia | apply Z.leb_le; nia].
Qed.

Lemma store_step i h c p q v :
  q = block_addr h i -> handle_wf h -> (i < NB)%nat ->
  store q v (mkTestState h c p) =
    Some (tt, mkTestState (mkPool (addr h) (write_bytes (memory h) (i * BS) (le_bytes v))
                                  (bitmap h)) c p).
Proof.
  intros ->. destruct h as [a m bm]. intros (_ & Hm & _) Hi. unfold store, store_u32, block_addr.
  cbn [test_pool addr memory bitmap] in *.
  rewrite block_in_memory by assumption. cbn [addr]. rewrite block_offset. reflexivity.
Qed.

Lemma load_block_written i a m v bm q :
  q = a + Z.of_nat i * Z.of_nat BS -> length m = (NB * BS)%nat -> (i < NB)%nat ->
  load_u32 (mkPool a (write_bytes m (i * BS) (le_bytes v)) bm) q = Some (u32 v).
Proof.
  intros -> Hm Hi. unfold load_u32.
  rewrite block_in_memory by (try rewrite length_write_bytes; auto). cbn [addr memory].
  rewrite block_offset. f_equal. rewrite <- le_value_le_bytes. f_equal.
  assert (Hr : (i * BS + length (le_bytes v) <= length m)%nat) by (rewrite Hm; simpl; nia).
  cbn [read_bytes].
  assert (E : forall d, (d < 4)%nat ->
    byte_at (write_bytes m (i * BS) (le_bytes v)) (i * BS + d) = nth d (le_bytes v) 0)
    by (intros d Hd; apply write_bytes_at; simpl in *; lia).
  pose proof (E 0%nat ltac:(lia)) as E0. pose proof (E 1%nat ltac:(lia)) as E1.
  pose proof (E 2%nat ltac:(lia)) as E2. pose proof (E 3%nat ltac:(lia)) as E3.
  replace (i * BS + 0)%nat with (i * BS)%nat in E0 by lia.
  replace (i * BS + 1)%nat with (S (i * BS)) in E1 by lia.
  replace (i * BS + 2)%nat with (S (S (i * BS))) in E2 by lia.
  replace (i * BS + 3)%nat with (S (S (S (i * BS)))) in E3 by lia.
  rewrite E0, E1, E2, E3. reflexivity.
Qed.

Lemma load_block_other i j a m v bm bm0 :
  length m = (NB * BS)%nat -> (i < NB)%nat -> (j < NB)%nat -> i <> j ->
  load_u32 (mkPool a (write_bytes m (i * BS) (le_bytes v)) bm) (a + Z.of_nat j * Z.of_nat BS) =
    load_u32 (mkPool a m bm0) (a + Z.of_nat j * Z.of_nat BS).
Proof.
  intros Hm Hi Hj Hij. unfold load_u32.
  rewrite !block_in_memory by (try rewrite length_write_bytes; auto). cbn [addr memory].
  rewrite block_offset. f_equal. f_equal.
  assert (Hd : (j * BS + 4 <= i * BS \/ i * BS + 4 <= j * BS)%nat).
  { destruct (Nat.lt_total i j) as [Hlt | [Heq | Hlt]]; [right | lia | left]; nia. }
  cbn [read_bytes].
  rewrite !write_bytes_other by (simpl; lia). reflexivity.
Qed.

Lemma wf_set a m bm i : handle_wf (mkPool a m bm) -> handle_wf (mkPool a m (set_bit bm i)).
Proof.
  intros (Ha & Hm & Hb & Hby). split; [exact Ha |]. split; [exact Hm |].
  split; [cbn [bitmap]; rewrite length_set_bit; exact Hb | now apply set_bit_bytes].
Qed.

Lemma wf_clear a m bm i : handle_wf (mkPool a m bm) -> handle_wf (mkPool a m (clear_bit bm i)).
Proof.
  intros (Ha & Hm & Hb & Hby). split; [exact Ha |]. split; [exact Hm |].
  split; [cbn [bitmap]; rewrite length_clear_bit; exact Hb | now apply clear_bit_bytes].
Qed.

Lemma wf_write a m bm k bs :
  handle_wf (mkPool a m bm) -> handle_wf (mkPool a (write_bytes m k bs) bm).
Proof.
  intros (Ha & Hm & Hb & Hby). split; [exact Ha |].
  split; [cbn [memory]; rewrite length_write_bytes; exact Hm |]. split; assumption.
Qed.

Lemma alloc_step h c p i :
  (i < NB)%nat -> test_bit (bitmap h) i = 0 ->
  (forall k, (k < i)%nat -> test_bit (bitmap h) k = 1) ->
  call_pool_alloc NB BS (mkTestState h c p) =
    Some (block_addr h i, mkTestState (mkPool (addr h) (memory h) (set_bit (bitmap h) i)) c p).
Proof.
  intros Hi H0 Hlow. unfold call_pool_alloc. cbn [test_pool].
  rewrite (pool_alloc_found NB BS BS_pos Hfit h i) by assumption. reflexivity.
Qed.

Lemma alloc_full_step h c p :
  (forall k, (k < NB)%nat -> test_bit (bitmap h) k = 1) ->
  call_pool_alloc NB BS (mkTestState h c p) = Some (NULL_PTR, mkTestState h c p).
Proof.
  intros Hall. unfold call_pool_alloc. cbn [test_pool].
  rewrite (pool_alloc_full NB BS BS_pos Hfit h) by assumption. reflexivity.
Qed.

Lemma free_block_step i h c p q :
  q = block_addr h i -> 0 < addr h -> (i < NB)%nat -> test_bit (bitmap h) i = 1 ->
  call_pool_free NB BS q (mkTestState h c p) =
    Some (tt, mkTestState (mkPool (addr h) (memory h) (clear_bit (bitmap h) i)) c p).
Proof.
  intros -> Ha Hi H1. unfold call_pool_free, pool_free. cbn [test_pool].
  rewrite (pool_free_exit_block NB BS BS_pos Hfit h i) by assumption.
  rewrite H1. reflexivity.
Qed.

Lemma free_outside_step h c p q :
  0 < addr h -> q < addr h \/ addr h + Z.of_nat (NB * BS) <= q ->
  call_pool_free NB BS q (mkTestState h c p) = Some (tt, mkTestState h c p).
Proof.
  intros Ha Hq. unfold call_pool_free. cbn [test_pool].
  destruct (pool_free_cases NB BS BS_pos Hfit h q) as [-> | (i & Hi & _ & -> & _)];
    [reflexivity |].
  exfalso. unfold block_addr in Hq. rewrite Nat2Z.inj_mul in Hq. nia.
Qed.

Lemma free_count_step h c :
  (forall k, (k < NB)%nat -> test_bit (bitmap h) k = 0) ->
  call_pool_get_free_count NB (mkTestState h c c) = Some (Z.of_nat NB, mkTestState h c c).
Proof.
  intros Hall. unfold call_pool_get_free_count. cbn [test_pool].
  rewrite (pool_get_free_count_count NB BS BS_pos Hfit h).
  rewrite clear_bits_in_all_clear; [reflexivity |]. intros k Hk. apply Hall. lia.
Qed.

Lemma test_pool_init_ok h c :
  length (memory h) = (NB * BS)%nat -> length (bitmap h) = BITMAP_BYTES NB ->
  0 <= c -> c + 1 < 2 ^ 32 ->
  test_pool_init NB BS (mkTestState h c c) =
    Some (tt, mkTestState (zero_handle NB BS (addr h)) (c + 1) (c + 1)).
Proof.
  intros Hm Hb Hc Hc'. unfold test_pool_init.
  step reflexivity.
  step (unfold call_pool_init; cbn [test_pool];
             rewrite (pool_init_zero NB BS BS_pos Hfit h Hm Hb); reflexivity).
  step (apply free_count_step; intros k _; apply test_bit_replicate).
  apply assert_pass; [apply Z.eqb_eq; reflexivity | lia | lia | lia].
Qed.

Lemma test_single_allocation_ok h c :
  handle_wf h -> (forall k, (k < NB)%nat -> test_bit (bitmap h) k = 0) -> (0 < NB)%nat ->
  0 <= c -> c + 6 < 2 ^ 32 ->
  exists h', test_single_allocation NB BS (mkTestState h c c) =
               Some (tt, mkTestState h' (c + 6) (c + 6)) /\
             handle_wf h' /\ addr h' = addr h /\
             (forall k, (k < NB)%nat -> test_bit (bitmap h') k = 0).
Proof.
  intros Hwf Hfree HN Hc Hc'.
  assert (Hidx : forall k, (k < NB)%nat -> (k / 8 < length (bitmap h))%nat)
    by (intros k Hk; exact (wf_index NB BS BS_pos Hfit h k Hwf Hk)).
  destruct h as [a m bm]. pose proof Hwf as (Ha & Hm & Hb & Hby). cbn [addr memory bitmap] in *.
  eexists. split.
  { unfold test_single_allocation.
    step (apply (alloc_step _ c c 0); [exact HN | apply Hfree; exact HN | intros; lia]).
    step (apply assert_pass; [| lia | lia | lia];
               apply negb_true_iff, Z.eqb_neq; unfold block_addr, NULL_PTR; cbn; lia).
    step reflexivity.
    step (apply assert_pass; [| lia | lia | lia];
               apply Z.leb_le; unfold block_addr; cbn; lia).
    step (apply assert_pass; [| lia | lia | lia];
               apply Z.ltb_lt; unfold block_addr, sizeof_TPool_handle; cbn; nia).
    step (apply (store_step 0); [reflexivity | | exact HN];
               split; [exact Ha |]; split; [exact Hm |];
               split; [cbn [bitmap]; rewrite length_set_bit; exact Hb | now apply set_bit_bytes]).
    step (apply load_step; apply (load_block_written 0); [reflexivity | exact Hm | exact HN]).
    step (apply assert_pass; [reflexivity | lia | lia | lia]).
    step (apply (free_block_step 0); [reflexivity | exact Ha | exact HN |];
               bit_simpl Hidx; reflexivity).
    step (apply (alloc_step _ _ _ 0); [exact HN | | intros; lia]; bit_simpl Hidx; reflexivity).
    step (apply assert_pass; [apply Z.eqb_eq; reflexivity | lia | lia | lia]).
    step (apply (free_block_step 0); [reflexivity | exact Ha | exact HN |];
               bit_simpl Hidx; reflexivity).
    step (apply free_count_step; intros k Hk;
               destruct (decide (k = 0%nat)) as [-> | Hk0]; bit_simpl Hidx; auto).
    replace (c + 6) with (c + 1 + 1 + 1 + 1 + 1 + 1) by lia.
    apply assert_pass; [apply Z.eqb_eq; reflexivity | lia | lia | lia]. }
  split; [| split; [reflexivity |]].
  - split; [exact Ha |]. split; [cbn [memory]; rewrite length_write_bytes; exact Hm |].
    split; [cbn [bitmap]; repeat (rewrite length_set_bit || rewrite length_clear_bit); exact Hb |].
    cbn [bitmap]. repeat first [apply clear_bit_bytes | apply set_bit_bytes]. exact Hby.
  - intros k Hk. cbn [bitmap].
    destruct (decide (k = 0%nat)) as [-> | Hk0]; bit_simpl Hidx; auto.
Qed.

Lemma u32_range z : 0 <= u32 z < 2 ^ 32.
Proof. unfold u32. apply Z.mod_pos_bound. lia. Qed.

Lemma alloc_write_loop_ok (f : Z -> Z) a :
  (forall z, 0 <= f z < 2 ^ 32) ->
  forall fuel i blocks m bm c,
  (i + fuel = NB)%nat -> handle_wf (mkPool a m bm) -> length blocks = NB ->
  (forall k, (k < i)%nat -> test_bit bm k = 1) ->
  (forall k, (i <= k < NB)%nat -> test_bit bm k = 0) ->
  (forall j, (j < i)%nat -> blocks !! j = Some (a + Z.of_nat j * Z.of_nat BS) /\
     load_u32 (mkPool a m bm) (a + Z.of_nat j * Z.of_nat BS) = Some (f (Z.of_nat j))) ->
  0 <= c -> c + Z.of_nat fuel < 2 ^ 32 ->
  exists blocks' m' bm',
    alloc_write_loop NB BS f blocks i fuel (mkTestState (mkPool a m bm) c c) =
      Some (blocks', mkTestState (mkPool a m' bm') (c + Z.of_nat fuel) (c + Z.of_nat fuel)) /\
    handle_wf (mkPool a m' bm') /\ length blocks' = NB /\
    (forall k, (k < NB)%nat -> test_bit bm' k = 1) /\
    (forall j, (j < NB)%nat -> blocks' !! j = Some (a + Z.of_nat j * Z.of_nat BS) /\
       load_u32 (mkPool a m' bm') (a + Z.of_nat j * Z.of_nat BS) = Some (f (Z.of_nat j))).
Proof.
  intros Hf fuel. induction fuel as [|fuel IH];
    intros i blocks m bm c Hi Hwf Hlen Hlow Hhigh Hblk Hc Hc'.
  - exists blocks, m, bm. rewrite Z.add_0_r. split; [reflexivity |].
    split; [exact Hwf |]. split; [exact Hlen |].
    split; [intros k Hk; apply Hlow; lia | intros j Hj; apply Hblk; lia].
  - pose proof Hwf as (Ha & Hm & Hb & Hby). cbn [addr memory bitmap] in *.
    assert (Hidx : forall k, (k < NB)%nat -> (k / 8 < length bm)%nat)
      by (intros k Hk; exact (wf_index NB BS BS_pos Hfit (mkPool a m bm) k Hwf Hk)).
    set (m1 := write_bytes m (i * BS) (le_bytes (f (Z.of_nat i)))).
    set (blocks1 := <[i := a + Z.of_nat i * Z.of_nat BS]> blocks).
    edestruct (IH (S i) blocks1 m1 (set_bit bm i) (c + 1))
      as (bl & m' & bm' & E & Hwf' & Hlen' & Hset' & Hblk');
      [lia | apply wf_set, wf_write, Hwf | unfold blocks1; rewrite length_insert; lia
      | | | | lia | lia |].
    + intros k Hk. destruct (decide (k = i)) as [-> | Hne]; bit_simpl Hidx; [reflexivity |].
      apply Hlow. lia.
    + intros k Hk. bit_simpl Hidx. apply Hhigh. lia.
    + intros j Hj. unfold blocks1. destruct (decide (j = i)) as [-> | Hne].
      * rewrite list_lookup_insert_eq by lia. split; [reflexivity |].
        unfold m1. rewrite (load_block_written i) by (auto; lia).
        unfold u32. rewrite Z.mod_small by apply Hf. reflexivity.
      * rewrite list_lookup_insert_ne by lia. unfold m1.
        rewrite (load_block_other i j a m _ _ bm) by (auto; lia). apply Hblk. lia.
    + exists bl, m', bm'. split; [| tauto].
      cbn [alloc_write_loop].
      step (apply (alloc_step _ _ _ i); [lia | apply Hhigh; lia | exact Hlow]).
      change (block_addr (mkPool a m bm) i) with (a + Z.of_nat i * Z.of_nat BS).
      fold blocks1.
      assert (Hl : blocks1 !! i = Some (a + Z.of_nat i * Z.of_nat BS))
        by (unfold blocks1; apply list_lookup_insert_eq; lia).
      rewrite Hl. cbn [default id].
      step (apply assert_pass; [| lia | lia | lia];
            apply negb_true_iff, Z.eqb_neq; unfold NULL_PTR; nia).
      step (apply (store_step i); [reflexivity | apply wf_set, Hwf | lia]).
      fold m1. rewrite E. do 3 f_equal; lia.
Qed.

Lemma check_loop_ok (f : Z -> Z) a blocks h :
  forall fuel i c,
  (i + fuel = NB)%nat ->
  (forall j, (i <= j < NB)%nat -> blocks !! j = Some (a + Z.of_nat j * Z.of_nat BS) /\
     load_u32 h (a + Z.of_nat j * Z.of_nat BS) = Some (f (Z.of_nat j))) ->
  0 <= c -> c + Z.of_nat fuel < 2 ^ 32 ->
  check_loop f blocks i fuel (mkTestState h c c) =
    Some (tt, mkTestState h (c + Z.of_nat fuel) (c + Z.of_nat fuel)).
Proof.
  intros fuel. induction fuel as [|fuel IH]; intros i c Hi Hblk Hc Hc'.
  - rewrite Z.add_0_r. reflexivity.
  - cbn [check_loop]. destruct (Hblk i) as [Hl Hv]; [lia |]. rewrite Hl. cbn [default id].
    step (apply load_step; exact Hv).
    step (apply assert_pass; [apply Z.eqb_eq; reflexivity | lia | lia | lia]).
    rewrite IH by (try (intros j Hj; apply Hblk); lia). do 3 f_equal; lia.
Qed.

Lemma free_loop_ok a blocks :
  forall fuel i m bm c p,
  (i + fuel = NB)%nat -> handle_wf (mkPool a m bm) ->
  (forall k, (k < i)%nat -> test_bit bm k = 0) ->
  (forall k, (i <= k < NB)%nat -> test_bit bm k = 1) ->
  (forall j, (i <= j < NB)%nat -> blocks !! j = Some (a + Z.of_nat j * Z.of_nat BS)) ->
  exists bm',
    free_loop NB BS blocks i fuel (mkTestState (mkPool a m bm) c p) =
      Some (tt, mkTestState (mkPool a m bm') c p) /\
    handle_wf (mkPool a m bm') /\ (forall k, (k < NB)%nat -> test_bit bm' k = 0).
Proof.
  intros fuel. induction fuel as [|fuel IH]; intros i m bm c p Hi Hwf Hlow Hhigh Hblk.
  - exists bm. split; [reflexivity |]. split; [exact Hwf |]. intros k Hk. apply Hlow. lia.
  - pose proof Hwf as (Ha & Hm & Hb & Hby). cbn [addr memory bitmap] in *.
    assert (Hidx : forall k, (k < NB)%nat -> (k / 8 < length bm)%nat)
      by (intros k Hk; exact (wf_index NB BS BS_pos Hfit (mkPool a m bm) k Hwf Hk)).
    edestruct (IH (S i) m (clear_bit bm i) c p) as (bm' & E & Hwf' & Hclr');
      [lia | apply wf_clear, Hwf | | | |].
    + intros k Hk. destruct (decide (k = i)) as [-> | Hne]; bit_simpl Hidx; [reflexivity |].
      apply Hlow. lia.
    + intros k Hk. bit_simpl Hidx. apply Hhigh. lia.
    + intros j Hj. apply Hblk. lia.
    + exists bm'. split; [| tauto].
      cbn [free_loop]. rewrite (Hblk i) by lia. cbn [default id].
      step (apply (free_block_step i); [reflexivity | exact Ha | lia | apply Hhigh; lia]).
      exact E.
Qed.

Lemma test_multiple_allocations_ok a m bm c :
  handle_wf (mkPool a m bm) -> (forall k, (k < NB)%nat -> test_bit bm k = 0) ->
  0 <= c -> c + 4 * Z.of_nat NB + 1 < 2 ^ 32 ->
  exists m' bm', test_multiple_allocations NB BS (mkTestState (mkPool a m bm) c c) =
      Some (tt, mkTestState (mkPool a m' bm') (c + 4 * Z.of_nat NB + 1) (c + 4 * Z.of_nat NB + 1)) /\
    handle_wf (mkPool a m' bm') /\ (forall k, (k < NB)%nat -> test_bit bm' k = 0).
Proof.
  intros Hwf Hfree Hc Hc'.
  edestruct (alloc_write_loop_ok pattern_plus a (fun z => u32_range _) NB 0 (replicate NB 0) m bm c)
    as (bl & m1 & bm1 & E1 & Hwf1 & Hlen1 & Hset1 & Hblk1);
    [lia | exact Hwf | apply length_replicate | intros; lia | intros k Hk; apply Hfree; lia
    | intros; lia | lia | lia |].
  edestruct (free_loop_ok a bl NB 0 m1 bm1 (c + Z.of_nat NB + 1 + Z.of_nat NB)
                (c + Z.of_nat NB + 1 + Z.of_nat NB))
    as (bm2 & E2 & Hwf2 & Hclr2);
    [lia | exact Hwf1 | intros; lia | intros k Hk; apply Hset1; lia
    | intros j Hj; apply Hblk1; lia |].
  edestruct (alloc_write_loop_ok pattern_not a (fun z => u32_range _) NB 0 bl m1 bm2
               (c + Z.of_nat NB + 1 + Z.of_nat NB))
    as (bl3 & m3 & bm3 & E3 & Hwf3 & Hlen3 & Hset3 & Hblk3);
    [lia | exact Hwf2 | exact Hlen1 | intros; lia | intros k Hk; apply Hclr2; lia
    | intros; lia | lia | lia |].
  edestruct (free_loop_ok a bl3 NB 0 m3 bm3
               (c + Z.of_nat NB + 1 + Z.of_nat NB + Z.of_nat NB + Z.of_nat NB)
               (c + Z.of_nat NB + 1 + Z.of_nat NB + Z.of_nat NB + Z.of_nat NB))
    as (bm4 & E4 & Hwf4 & Hclr4);
    [lia | exact Hwf3 | intros; lia | intros k Hk; apply Hset3; lia
    | intros j Hj; apply Hblk3; lia |].
  exists m3, bm4. split; [| split; assumption].
  unfold test_multiple_allocations.
  step (exact E1).
  step (apply alloc_full_step; exact Hset1).
  step (apply assert_pass; [apply Z.eqb_eq; reflexivity | lia | lia | lia]).
  step (apply (check_loop_ok _ a); [lia | intros j Hj; apply Hblk1; lia | lia | lia]).
  step (exact E2).
  step (exact E3).
  step (apply (check_loop_ok _ a); [lia | intros j Hj; apply Hblk3; lia | lia | lia]).
  rewrite E4. do 3 f_equal; lia.
Qed.

Lemma test_free_and_reuse_ok a m bm c :
  handle_wf (mkPool a m bm) -> (forall k, (k < NB)%nat -> test_bit bm k = 0) -> (2 <= NB)%nat ->
  0 <= c -> c + 4 < 2 ^ 32 ->
  exists bm', test_free_and_reuse NB BS (mkTestState (mkPool a m bm) c c) =
      Some (tt, mkTestState (mkPool a m bm') (c + 4) (c + 4)) /\
    handle_wf (mkPool a m bm') /\ (forall k, (k < NB)%nat -> test_bit bm' k = 0).
Proof.
  intros Hwf Hfree HN Hc Hc'.
  pose proof Hwf as (Ha & Hm & Hb & Hby). cbn [addr memory bitmap] in *.
  assert (Hidx : forall k, (k < NB)%nat -> (k / 8 < length bm)%nat)
    by (intros k Hk; exact (wf_index NB BS BS_pos Hfit (mkPool a m bm) k Hwf Hk)).
  eexists. split.
  { unfold test_free_and_reuse.
    step (apply (alloc_step _ _ _ 0); [lia | apply Hfree; lia | intros; lia]).
    step (apply (alloc_step _ _ _ 1); [lia | bit_simpl Hidx; apply Hfree; lia |];
          intros k Hk; replace k with 0%nat by lia; bit_simpl Hidx; reflexivity).
    step (apply assert_pass; [| lia | lia | lia];
          apply negb_true_iff, Z.eqb_neq; unfold block_addr, NULL_PTR; cbn; lia).
    step (apply assert_pass; [| lia | lia | lia];
          apply negb_true_iff, Z.eqb_neq; unfold block_addr, NULL_PTR; cbn; lia).
    step (apply assert_pass; [| lia | lia | lia];
          apply negb_true_iff, Z.eqb_neq; unfold block_addr; cbn; lia).
    step (apply (free_block_step 0); [reflexivity | exact Ha | lia | bit_simpl Hidx; reflexivity]).
    step (apply (alloc_step _ _ _ 0); [lia | bit_simpl Hidx; reflexivity | intros; lia]).
    step (apply assert_pass; [| lia | lia | lia];
          apply negb_true_iff, Z.eqb_neq; unfold block_addr, NULL_PTR; cbn; lia).
    step (apply (free_block_step 1); [reflexivity | exact Ha | lia | bit_simpl Hidx; reflexivity]).
    replace (c + 4) with (c + 1 + 1 + 1 + 1) by lia.
    apply (free_block_step 0); [reflexivity | exact Ha | lia | bit_simpl Hidx; reflexivity]. }
  split.
  - repeat first [apply wf_set | apply wf_clear]. exact Hwf.
  - intros k Hk. destruct (decide (k = 0%nat)) as [-> | Hk0]; [bit_simpl Hidx; reflexivity |].
    destruct (decide (k = 1%nat)) as [-> | Hk1]; bit_simpl Hidx; [reflexivity |]. auto.
Qed.

Lemma test_null_handling_ok a m bm c p :
  handle_wf (mkPool a m bm) -> (forall k, (k < NB)%nat -> test_bit bm k = 0) -> (0 < NB)%nat ->
  0 <= p -> p <= c -> c + 2 < 2 ^ 32 ->
  exists bm', test_null_handling NB BS (mkTestState (mkPool a m bm) c p) =
      Some (tt, mkTestState (mkPool a m bm') (c + 2) (p + 2)) /\
    handle_wf (mkPool a m bm') /\ (forall k, (k < NB)%nat -> test_bit bm' k = 0).
Proof.
  intros Hwf Hfree HN Hp Hpc Hc'.
  pose proof Hwf as (Ha & Hm & Hb & Hby). cbn [addr memory bitmap] in *.
  assert (Hidx : forall k, (k < NB)%nat -> (k / 8 < length bm)%nat)
    by (intros k Hk; exact (wf_index NB BS BS_pos Hfit (mkPool a m bm) k Hwf Hk)).
  eexists. split.
  { unfold test_null_handling.
    step reflexivity.
    step (apply assert_pass; [reflexivity | lia | lia | lia]).
    step reflexivity.
    step (apply (alloc_step _ _ _ 0); [lia | apply Hfree; lia | intros; lia]).
    step (apply assert_pass; [| lia | lia | lia];
          apply negb_true_iff, Z.eqb_neq; unfold block_addr, NULL_PTR; cbn; lia).
    step (apply free_outside_step; cbn [addr]; unfold NULL_PTR; lia).
    step reflexivity.
    replace (c + 2) with (c + 1 + 1) by lia. replace (p + 2) with (p + 1 + 1) by lia.
    apply (free_block_step 0); [reflexivity | exact Ha | lia | bit_simpl Hidx; reflexivity]. }
  split.
  - apply wf_clear, wf_set. exact Hwf.
  - intros k Hk. destruct (decide (k = 0%nat)) as [-> | Hk0]; bit_simpl Hidx; auto.
Qed.


Lemma test_boundary_conditions_ok h c p dummy_addr :
  0 < addr h ->
  dummy_addr < addr h \/ addr h + Z.of_nat (sizeof_TPool_handle NB BS) <= dummy_addr ->
  test_boundary_conditions NB BS dummy_addr (mkTestState h c p) = Some (tt, mkTestState h c p).
Proof.
  intros Ha Hd. unfold sizeof_TPool_handle in *. unfold test_boundary_conditions.
  step (apply free_outside_step; [exact Ha | lia]).
  step reflexivity.
  step (apply free_outside_step; [exact Ha | lia]).
  apply free_outside_step; [exact Ha |]. unfold sizeof_TPool_handle. lia.
Qed.

End Harness_proofs.

Section Harness_results.

Variables NB BS : nat.
Hypothesis HS4 : (4 <= BS)%nat.
Hypothesis Hfit : Z.of_nat (NB * BS) < 2 ^ 31.

Local Abbreviation handle_wf := (handle_wf NB BS).

(** [run_all_tests] (test_pool.c), started on a handle object [h] with both
    counters 0: when the pool has at least two blocks of at least four bytes
    (room for the [uint32] the tests store in a block) and the local [dummy]
    of [test_boundary_conditions] lies outside [test_pool], every access the
    tests make stays inside the pool's storage, all [14 + 4 * POOL_NUM_BLOCKS]
    assertions pass, and the pool is left with every block free. *)
Theorem run_all_tests_all_pass h dummy_addr :
  (2 <= NB)%nat -> handle_wf h ->
  dummy_addr < addr h \/ addr h + Z.of_nat (sizeof_TPool_handle NB BS) <= dummy_addr ->
  exists s', run_all_tests NB BS dummy_addr (mkTestState h 0 0) = Some (tt, s') /\
    test_count s' = 14 + 4 * Z.of_nat NB /\ test_passed s' = test_count s' /\
    addr (test_pool s') = addr h /\
    (forall k, (k < NB)%nat -> test_bit (bitmap (test_pool s')) k = 0).
Proof.
  intros HN Hwf Hd.
  assert (Hbound : 4 * Z.of_nat NB <= Z.of_nat (NB * BS)) by (rewrite Nat2Z.inj_mul; nia).
  destruct h as [a m bm]. pose proof Hwf as (Ha & Hm & Hb & Hby). cbn [addr memory bitmap] in *.
  pose proof (zero_handle_wf NB BS (BS_pos NB BS HS4 Hfit) Hfit a Ha) as Hz.
  edestruct (test_single_allocation_ok NB BS HS4 Hfit (zero_handle NB BS a) 1)
    as ([a1 m1 bm1] & E1 & Hwf1 & Ha1 & Hf1);
    [exact Hz | intros k _; apply test_bit_replicate | lia | lia | lia |].
  cbn [addr] in Ha1. subst a1.
  edestruct (test_multiple_allocations_ok NB BS HS4 Hfit a m1 bm1 7)
    as (m2 & bm2 & E2 & Hwf2 & Hf2); [exact Hwf1 | exact Hf1 | lia | lia |].
  edestruct (test_free_and_reuse_ok NB BS HS4 Hfit a m2 bm2 (7 + 4 * Z.of_nat NB + 1))
    as (bm3 & E3 & Hwf3 & Hf3); [exact Hwf2 | exact Hf2 | exact HN | lia | lia |].
  edestruct (test_null_handling_ok NB BS HS4 Hfit a m2 bm3 (7 + 4 * Z.of_nat NB + 1 + 4)
               (7 + 4 * Z.of_nat NB + 1 + 4))
    as (bm4 & E4 & Hwf4 & Hf4); [exact Hwf3 | exact Hf3 | lia | lia | lia | lia |].
  eexists. split; [| split; [| split; [| split]]].
  - unfold run_all_tests.
    step (apply (test_pool_init_ok NB BS HS4 Hfit); [exact Hm | exact Hb | lia | lia]).
    step (exact E1).
    step (exact E2).
    step (exact E3).
    step (exact E4).
    apply (test_boundary_conditions_ok NB BS HS4 Hfit); [exact Ha | exact Hd].
  - cbn. lia.
  - reflexivity.
  - reflexivity.
  - exact Hf4.
Qed.


End Harness_results.

(** ** Witnesses of the further properties, on the demo configuration *)

Lemma mem_set_spec_witness :
  (2 <= length [1; 2; 3])%nat /\ mem_set (Some [1; 2; 3]) 300 2%nat = Some [44; 44; 3].
Proof.
  split; [simpl; lia |].
  rewrite (proj2 mem_set_spec [1; 2; 3] 300 2%nat ltac:(simpl; lia)). reflexivity.
Defined.

Lemma bitmap_set_clear_roundtrip_witness :
  Forall is_byte [5] /\ (1 / 8 < length [5])%nat /\ test_bit [5] 1 = 0 /\
  clear_bit (set_bit [5] 1) 1 = [5].
Proof.
  assert (Hby : Forall is_byte [5]) by (repeat constructor; unfold is_byte; lia).
  split; [exact Hby |]. split; [simpl; lia |]. split; [reflexivity |].
  exact (proj1 (bitmap_set_clear_roundtrip [5] 1 Hby ltac:(simpl; lia)) eq_refl).
Defined.

Lemma find_first_free_spec_witness :
  Z.of_nat 4 <= 2 ^ 31 /\ find_first_free [5] 4 = 1 /\
  (find_first_free [5] 4 = -1 <-> forall k, (k < 4)%nat -> test_bit [5] k = 1).
Proof.
  split; [simpl; lia |]. split; [reflexivity |].
  exact (proj1 (find_first_free_spec [5] 4 ltac:(simpl; lia))).
Defined.

Lemma pool_alloc_free_count_witness :
  (0 < 32)%nat /\ Z.of_nat (4 * 32) < 2 ^ 31 /\ handle_wf 4 32 demo_pool /\
  pool_alloc 4 32 (Some demo_pool) = (Some (mkPool 4096 (replicate 128 7) [7]), 4128) /\
  pool_get_free_count 4 (Some (mkPool 4096 (replicate 128 7) [7])) =
    pool_get_free_count 4 (Some demo_pool) - 1.
Proof.
  assert (E : pool_alloc 4 32 (Some demo_pool) =
                (Some (mkPool 4096 (replicate 128 7) [7]), 4128)) by reflexivity.
  split; [lia |]. split; [simpl; lia |]. split; [cfg_wf |]. split; [exact E |].
  exact (proj1 (pool_alloc_free_count 4 32 ltac:(lia) ltac:(simpl; lia) demo_pool _ _
                  ltac:(cfg_wf) E) ltac:(discriminate)).
Defined.

Lemma pool_free_free_count_witness :
  (0 < 32)%nat /\ Z.of_nat (4 * 32) < 2 ^ 31 /\ handle_wf 4 32 demo_pool /\
  4096 = block_addr 32 demo_pool 0 /\ test_bit (bitmap demo_pool) 0 = 1 /\
  pool_get_free_count 4 (pool_free 4 32 (Some demo_pool) 4096) =
    pool_get_free_count 4 (Some demo_pool) + 1.
Proof.
  split; [lia |]. split; [simpl; lia |]. split; [cfg_wf |].
  split; [reflexivity |]. split; [reflexivity |].
  exact (proj1 (pool_free_free_count 4 32 ltac:(lia) ltac:(simpl; lia) demo_pool 4096
                  ltac:(cfg_wf)) 0%nat ltac:(lia) eq_refl eq_refl).
Defined.

Lemma pool_alloc_free_roundtrip_witness :
  (0 < 32)%nat /\ Z.of_nat (4 * 32) < 2 ^ 31 /\ handle_wf 4 32 demo_pool /\
  pool_alloc 4 32 (Some demo_pool) = (Some (mkPool 4096 (replicate 128 7) [7]), 4128) /\
  pool_free 4 32 (Some (mkPool 4096 (replicate 128 7) [7])) 4128 = Some demo_pool.
Proof.
  assert (E : pool_alloc 4 32 (Some demo_pool) =
                (Some (mkPool 4096 (replicate 128 7) [7]), 4128)) by reflexivity.
  split; [lia |]. split; [simpl; lia |]. split; [cfg_wf |]. split; [exact E |].
  exact (pool_alloc_free_roundtrip 4 32 ltac:(lia) ltac:(simpl; lia) demo_pool _ 4128
           ltac:(cfg_wf) E ltac:(unfold NULL_PTR; discriminate)).
Defined.

Lemma pool_free_alloc_roundtrip_witness :
  (0 < 32)%nat /\ Z.of_nat (4 * 32) < 2 ^ 31 /\ handle_wf 4 32 demo_pool /\
  test_bit (bitmap demo_pool) 0 = 1 /\
  pool_alloc 4 32 (pool_free 4 32 (Some demo_pool) (block_addr 32 demo_pool 0)) =
    (Some demo_pool, block_addr 32 demo_pool 0).
Proof.
  split; [lia |]. split; [simpl; lia |]. split; [cfg_wf |]. split; [reflexivity |].
  exact (pool_free_alloc_roundtrip 4 32 ltac:(lia) ltac:(simpl; lia) demo_pool 0
           ltac:(cfg_wf) ltac:(lia) eq_refl ltac:(intros; lia)).
Defined.

Lemma run_all_tests_all_pass_witness :
  (4 <= 32)%nat /\ Z.of_nat (4 * 32) < 2 ^ 31 /\ handle_wf 4 32 demo_pool /\
  exists s', run_all_tests 4 32 100 (mkTestState demo_pool 0 0) = Some (tt, s') /\
    test_count s' = 30 /\ test_passed s' = 30.
Proof.
  split; [lia |]. split; [simpl; lia |]. split; [cfg_wf |].
  destruct (run_all_tests_all_pass 4 32 ltac:(lia) ltac:(simpl; lia) demo_pool 100
              ltac:(lia) ltac:(cfg_wf) ltac:(left; simpl; lia))
    as (s' & E & Hc & Hp & _).
  exists s'. split; [exact E |]. rewrite Hp, Hc. split; reflexivity.
Defined.

